(** * Static code analyzer: a shallow embedding of [code_analyzer.py]

    The analyzer reads Python files, runs seven textual checks on every
    physical line and five checks on the parsed syntax tree, collects the
    issues in one list and prints them sorted.

    Text is modelled as [string], a sequence of 8-bit characters, each
    standing for the code point of its number (U+0000 to U+00FF); text
    with other code points is outside the model.  The two white-space
    classes ("\s" and [str.isspace]) are given on this whole range.  The
    letter classes of the [regex] module and the case folding are given
    on the ASCII range, where "\p{Lu}" is [A-Z] and "\w" is
    [A-Za-z0-9_]; the statements that describe what a check does on a
    line of text are made for ASCII text ([is_ascii]).  Integers
    are [Z].  The objects of the run are passed as explicit state, and a
    method that can raise returns an [option].  Reading a file and
    parsing it are outside the analyzer: a file comes with its text and
    with the tree [ast.parse] returns for it. *)

From Stdlib Require Import String Ascii List ZArith NArith Lia Bool.
From Stdlib Require Import Sorted Permutation DecimalString.
From Stdlib Require Import RelationClasses OrdersEx.
Import ListNotations.

Local Open Scope string_scope.
Local Open Scope list_scope.

(** ** Character classes *)

Module CharClass.

Definition ord (c : ascii) : N := N_of_ascii c.

Definition between (lo hi : N) (c : ascii) : bool :=
  (lo <=? ord c)%N && (ord c <=? hi)%N.

(** the class "\p{Lu}" *)
Definition is_lu (c : ascii) : bool := between 65 90 c.

Definition is_ll (c : ascii) : bool := between 97 122 c.

Definition is_digit (c : ascii) : bool := between 48 57 c.

(** the class "\w" *)
Definition is_word (c : ascii) : bool :=
  is_lu c || is_ll c || is_digit c || Ascii.eqb c "_".

(** the class "\s": the characters with the property White_Space, which
    below U+0100 are tab to carriage return, space, next line (U+0085)
    and no-break space (U+00A0) *)
Definition is_space (c : ascii) : bool :=
  between 9 13 c || Ascii.eqb c " " || between 133 133 c || between 160 160 c.

(** [str.isspace] on one character, as [str.strip] and [str.rstrip] use
    it: the white space of the patterns and the four separators U+001C
    to U+001F. *)
Definition py_isspace (c : ascii) : bool :=
  is_space c || between 28 31 c.

(** a character of the ASCII range *)
Definition is_ascii_char (c : ascii) : bool := (ord c <? 128)%N.

(** Case folding of the [IGNORECASE] flag. *)
Definition fold_case (c : ascii) : ascii :=
  if is_lu c then ascii_of_N (ord c + 32) else c.

End CharClass.
Import CharClass.

(** ** Patterns and the backtracking matcher

    The patterns of the analyzer use character classes, sequence,
    alternative, repetition and the two anchors. *)

Inductive regex : Type :=
| Eps
| Chr (p : ascii -> bool)
| Seq (r1 r2 : regex)
| Alt (r1 r2 : regex)
| Star (r : regex)
| Bos
| Eos.

Declare Scope regex_scope.
Delimit Scope regex_scope with re.
Bind Scope regex_scope with regex.
Infix "@" := Seq (at level 40, left associativity) : regex_scope.
Infix "|||" := Alt (at level 50, left associativity) : regex_scope.

Module Re.

(** a literal character *)
Definition lit (c : ascii) : regex := Chr (Ascii.eqb c).

(** any character but [c] *)
Definition not_lit (c : ascii) : regex := Chr (fun x => negb (Ascii.eqb c x)).

(** a literal character under [IGNORECASE] *)
Definition lit_i (c : ascii) : regex :=
  Chr (fun x => Ascii.eqb (fold_case x) (fold_case c)).

(** the dot: anything but a line feed *)
Definition dot : regex := Chr (fun x => negb (Ascii.eqb x "010")).

Definition s : regex := Chr is_space.

Definition S' : regex := Chr (fun x => negb (is_space x)).

Definition w : regex := Chr is_word.

Definition lu : regex := Chr is_lu.

Definition not_lu : regex := Chr (fun x => negb (is_lu x)).

(** [r?], the longer match first *)
Definition opt (r : regex) : regex := Alt r Eps.

(** [r{2,}] *)
Definition two_or_more (r : regex) : regex := Seq r (Seq r (Star r)).

(** the characters of [t], one after the other *)
Fixpoint word (f : ascii -> regex) (t : string) : regex :=
  match t with
  | EmptyString => Eps
  | String c t' => Seq (f c) (word f t')
  end.

End Re.

Definition is_empty (s : string) : bool :=
  match s with EmptyString => true | _ => false end.

(** [$] matches at the end of the subject and before a final line feed. *)
Definition at_end (s : string) : bool :=
  match s with
  | EmptyString => true
  | String c EmptyString => Ascii.eqb c "010"
  | _ => false
  end.

Definition or_else {A} (x y : option A) : option A :=
  match x with Some _ => x | None => y end.

(** The loop of a repetition: one more round of the body [m], which has
    to consume something, before the rest [k] is tried without it. *)
Fixpoint star_loop {A}
         (m : bool -> string -> (bool -> string -> option A) -> option A)
         (k : bool -> string -> option A)
         (n : nat) (b : bool) (s : string) {struct n} : option A :=
  match n with
  | O => k b s
  | S n' =>
      or_else
        (m b s (fun b' s' =>
                  if Nat.ltb (String.length s') (String.length s)
                  then star_loop m k n' b' s' else None))
        (k b s)
  end.

(** [rmatch r b s k]: match [r] at the head of [s], trying the
    alternatives in the order a backtracking engine does (left branch
    first, longest repetition first), and pass what is left to [k].
    [b] tells whether the position is the start of the subject. *)
Fixpoint rmatch {A} (r : regex) (b : bool) (s : string)
         (k : bool -> string -> option A) {struct r} : option A :=
  match r with
  | Eps => k b s
  | Chr p =>
      match s with
      | String c s' => if p c then k false s' else None
      | EmptyString => None
      end
  | Seq r1 r2 => rmatch r1 b s (fun b' s' => rmatch r2 b' s' k)
  | Alt r1 r2 => or_else (rmatch r1 b s k) (rmatch r2 b s k)
  | Star r1 => star_loop (rmatch r1) k (String.length s) b s
  | Bos => if b then k b s else None
  | Eos => if at_end s then k b s else None
  end.

(** What a pattern matches: [rx r b s q] says that [r] matches the text
    [s] when [q] follows it in the subject and [b] tells whether [s]
    starts the subject. *)
Inductive star (P : bool -> string -> string -> Prop)
  : bool -> string -> string -> Prop :=
| star_nil b q : star P b EmptyString q
| star_cons b s1 s2 q :
    P b s1 (s2 ++ q)%string -> s1 <> EmptyString -> star P false s2 q ->
    star P b (s1 ++ s2)%string q.

Fixpoint rx (r : regex) : bool -> string -> string -> Prop :=
  match r with
  | Eps => fun _ s _ => s = EmptyString
  | Chr p => fun _ s _ => exists c, s = String c EmptyString /\ p c = true
  | Seq r1 r2 => fun b s q =>
      exists s1 s2, s = (s1 ++ s2)%string /\ rx r1 b s1 (s2 ++ q)%string
                    /\ rx r2 (b && is_empty s1) s2 q
  | Alt r1 r2 => fun b s q => rx r1 b s q \/ rx r2 b s q
  | Star r1 => star (rx r1)
  | Bos => fun b s _ => s = EmptyString /\ b = true
  | Eos => fun _ s q => s = EmptyString /\ at_end q = true
  end.

(** [re.match(pattern, s)]: the rest of the subject after the match. *)
Definition re_match_rest (r : regex) (s : string) : option string :=
  rmatch r true s (fun _ rest => Some rest).

(** [bool(re.match(pattern, s))] *)
Definition re_match (r : regex) (s : string) : bool :=
  match re_match_rest r s with Some _ => true | None => false end.

(** [re.match(pattern, s).end()] *)
Definition re_match_end (r : regex) (s : string) : option nat :=
  match re_match_rest r s with
  | Some rest => Some (String.length s - String.length rest)
  | None => None
  end.


(** ** Strings the way the analyzer uses them *)

(** [str.lstrip()] *)
Fixpoint lstrip (s : string) : string :=
  match s with
  | EmptyString => EmptyString
  | String c s' => if py_isspace c then lstrip s' else s
  end.

(** [str.rstrip()] *)
Fixpoint rstrip (s : string) : string :=
  match s with
  | EmptyString => EmptyString
  | String c s' =>
      let r := rstrip s' in
      if is_empty r && py_isspace c then EmptyString else String c r
  end.

(** [str.strip()] *)
Definition strip (s : string) : string := rstrip (lstrip s).

(** [str.split('\n')] *)
Fixpoint split_lines (s : string) : list string :=
  match s with
  | EmptyString => [EmptyString]
  | String c s' =>
      if Ascii.eqb c "010" then EmptyString :: split_lines s'
      else match split_lines s' with
           | h :: t => String c h :: t
           | [] => [String c EmptyString]
           end
  end.

(** [sep.join(parts)] is [String.concat sep parts]. *)
Definition join (sep : string) (parts : list string) : string :=
  String.concat sep parts.

(** [str(n)] for an [int] *)
Definition str_of_int (n : Z) : string := NilZero.string_of_int (Z.to_int n).

(** [l[lo:hi]] for [0 <= lo <= hi] *)
Definition slice {A} (l : list A) (lo hi : nat) : list A :=
  firstn (hi - lo) (skipn lo l).

(** ** Issues *)

Module Issue.

Record t : Type := mk {
  file : string;
  line_num : Z;
  code : string;
  message : string
}.

(** [a < b] on the named tuples: the first field that differs decides. *)
Definition ltb (a b : t) : bool :=
  if negb (file a =? file b) then String.ltb (file a) (file b)
  else if negb (line_num a =? line_num b)%Z then (line_num a <? line_num b)%Z
  else if negb (code a =? code b) then String.ltb (code a) (code b)
  else if negb (message a =? message b) then String.ltb (message a) (message b)
  else false.

(** the f-string of [__str__] *)
Definition render (i : t) : string :=
  file i ++ ": Line " ++ str_of_int (line_num i) ++ ": " ++ code i ++ " "
  ++ message i.

End Issue.

(** [sorted]: a stable sort by [<]; an element goes in front of the
    first one that is not smaller than it. *)
Fixpoint insert_issue (x : Issue.t) (l : list Issue.t) : list Issue.t :=
  match l with
  | [] => [x]
  | y :: r => if Issue.ltb y x then y :: insert_issue x r else x :: l
  end.

Fixpoint sorted (l : list Issue.t) : list Issue.t :=
  match l with
  | [] => []
  | x :: r => insert_issue x (sorted r)
  end.

(** ** Syntax trees

    The part of [ast] the analyzer looks at.  [ClassDef], [FunctionDef]
    and [Name] carry the attributes that are read.  A [FunctionDef] has
    the names of its parameters as [ast.arguments] groups them, the
    default values of the keyword-only parameters ([args.kw_defaults],
    those that are present) and of the positional ones
    ([args.defaults]) as lists of expressions, and its remaining
    children (body, decorators, annotations) in one list.  [List_],
    [Set_] and [Dict] are the three display expressions; every other
    kind of node is [Other] with its children. *)

Inductive expr_context : Type := Load | Store | Del.

(** The parameter names of [ast.arguments]: in [def f(a, /, b, *c, d, **e)]
    the name [a] is in [posonlyargs], [b] in [args], [c] is [vararg],
    [d] is in [kwonlyargs] and [e] is [kwarg]. *)
Record arguments : Type := mk_arguments {
  posonlyargs : list string;
  args : list string;
  vararg : option string;
  kwonlyargs : list string;
  kwarg : option string
}.

(** parameters that can all be passed by position or by keyword *)
Definition plain_arguments (names : list string) : arguments :=
  mk_arguments [] names None [] None.

#[local] Unset Elimination Schemes.

Inductive node : Type :=
| ClassDef (name : string) (lineno : Z) (children : list node)
| FunctionDef (name : string) (lineno : Z) (node_args : arguments)
              (kw_defaults defaults : list node) (children : list node)
| Name (id : string) (ctx : expr_context) (lineno : Z)
| List_ (elts : list node)
| Set_ (elts : list node)
| Dict (entries : list node)
| Other (children : list node).

#[local] Set Elimination Schemes.

(** [ast.iter_child_nodes] *)
Definition iter_child_nodes (n : node) : list node :=
  match n with
  | ClassDef _ _ ch => ch
  | FunctionDef _ _ _ kd ds ch => kd ++ ds ++ ch
  | Name _ _ _ => []
  | List_ ch | Set_ ch | Dict ch | Other ch => ch
  end.

Fixpoint size (n : node) : nat :=
  let fix sizes (l : list node) : nat :=
    match l with
    | [] => 0
    | x :: r => size x + sizes r
    end in
  match n with
  | ClassDef _ _ ch => S (sizes ch)
  | FunctionDef _ _ _ kd ds ch => S (sizes kd + (sizes ds + sizes ch))
  | Name _ _ _ => 1
  | List_ ch | Set_ ch | Dict ch | Other ch => S (sizes ch)
  end.

(** [ast.walk]: a queue of nodes still to yield; the head is yielded and
    its children join the back of the queue.  The fuel bounds the number
    of nodes yielded. *)
Fixpoint walk_queue (fuel : nat) (todo : list node) : list node :=
  match fuel with
  | O => []
  | S fuel' =>
      match todo with
      | [] => []
      | n :: rest => n :: walk_queue fuel' (rest ++ iter_child_nodes n)
      end
  end.

Definition walk (n : node) : list node := walk_queue (size n) [n].

(** [isinstance(default, (ast.List, ast.Set, ast.Dict))] *)
Definition is_mutable_display (n : node) : bool :=
  match n with
  | List_ _ | Set_ _ | Dict _ => true
  | _ => false
  end.

(** ** The analyzer

    The state of a [CodeAnalyzer] object: the file being analyzed, its
    tree and lines, the line the line checks look at, and the issues
    found so far. *)

Record CodeAnalyzer : Type := mkAnalyzer {
  file : string;
  tree : node;
  lines : list string;
  line_num : Z;
  line : string;
  issues : list Issue.t
}.

Definition set_file (a : CodeAnalyzer) (f : string) : CodeAnalyzer :=
  mkAnalyzer f (tree a) (lines a) (line_num a) (line a) (issues a).

Definition set_source (a : CodeAnalyzer) (ls : list string) (t : node)
  : CodeAnalyzer :=
  mkAnalyzer (file a) t ls (line_num a) (line a) (issues a).

Definition set_line (a : CodeAnalyzer) (n : Z) (l : string) : CodeAnalyzer :=
  mkAnalyzer (file a) (tree a) (lines a) n l (issues a).

Definition issue_append (a : CodeAnalyzer) (num : Z) (code message : string)
  : CodeAnalyzer :=
  mkAnalyzer (file a) (tree a) (lines a) (line_num a) (line a)
             (issues a ++ [Issue.mk (file a) num code message]).

(** A method either returns the new state or raises. *)
Definition method : Type := CodeAnalyzer -> option CodeAnalyzer.

Definition bind (m : option CodeAnalyzer) (f : method) : option CodeAnalyzer :=
  match m with
  | Some a => f a
  | None => None
  end.

Notation "m >>= f" := (bind m f) (at level 50, left associativity).

(** *** The patterns *)

Module Pattern.
Import Re.
Local Open Scope regex_scope.

(** the pattern "\s*" *)
Definition indent : regex := Star s.

(** the pattern "^[^#]*;\s*(C)?$", where the group C is "#.*" *)
Definition semicolon : regex :=
  Bos @ Star (not_lit "#") @ lit ";" @ Star s @ opt (lit "#" @ Star dot) @ Eos.

(** the pattern "^[^#]*\S ?#" *)
Definition inline : regex :=
  Bos @ Star (not_lit "#") @ S' @ opt (lit " ") @ lit "#".

(** the pattern "^[^#]*#.*todo" with [IGNORECASE] *)
Definition todo : regex :=
  Bos @ Star (not_lit "#") @ lit "#" @ Star dot @ word lit_i "todo".

(** the pattern "^\s*(class|def)\s{2,}" with the group fixed to one keyword *)
Definition space_after (keyword : string) : regex :=
  Bos @ Star s @ word lit keyword @ two_or_more s.

(** the pattern "\w*\p{lu}\w*" *)
Definition not_snake : regex := Star w @ lu @ Star w.

(** the pattern "\P{lu}\w*|\w*_\w*" *)
Definition not_camel : regex := (not_lu @ Star w) ||| (Star w @ lit "_" @ Star w).

End Pattern.

(** *** Line checks *)

Definition check_length : method := fun a =>
  if (79 <? String.length (line a))%nat
  then Some (issue_append a (line_num a) "S001" "Too long")
  else Some a.

Definition check_indent : method := fun a =>
  match re_match_end Pattern.indent (line a) with
  | Some e =>
      if negb (e mod 4 =? 0)%nat
      then Some (issue_append a (line_num a) "S002"
                              "Indentation is not a multiple of 4")
      else Some a
  | None => None
  end.

Definition check_semicolon : method := fun a =>
  if re_match Pattern.semicolon (line a)
  then Some (issue_append a (line_num a) "S003" "Unnecessary semicolon")
  else Some a.

Definition check_inline : method := fun a =>
  if re_match Pattern.inline (line a)
  then Some (issue_append a (line_num a) "S004"
                          "At least two spaces required before inline comments")
  else Some a.

Definition check_todo : method := fun a =>
  if re_match Pattern.todo (line a)
  then Some (issue_append a (line_num a) "S005" "TODO found")
  else Some a.

(** [self.lines[line_index]] raises when the index is past the end; the
    test [line_index >= 3] comes first, so the index is never negative
    when the list is read. *)
Definition check_blank_lines : method := fun a =>
  let line_index := (line_num a - 1)%Z in
  if (3 <=? line_index)%Z then
    match nth_error (lines a) (Z.to_nat line_index) with
    | None => None
    | Some l =>
        if negb (is_empty (strip l))
           && is_empty (strip (join "" (slice (lines a)
                                              (Z.to_nat (line_index - 3))
                                              (Z.to_nat line_index))))
        then Some (issue_append a (line_num a) "S006"
                                "More than two blank lines used before this line")
        else Some a
    end
  else Some a.

(** The group of the pattern holds the keyword that matched; the two
    keywords are tried in the order of the pattern. *)
Definition check_space_class_def : method := fun a =>
  let report name :=
    issue_append a (line_num a) "S007" ("Too many spaces after '" ++ name ++ "'") in
  if re_match (Pattern.space_after "class") (line a) then Some (report "class")
  else if re_match (Pattern.space_after "def") (line a) then Some (report "def")
  else Some a.

Definition line_checks : list method :=
  [ check_length; check_indent; check_semicolon; check_inline; check_todo;
    check_blank_lines; check_space_class_def ].

Definition run_checks (checks : list method) : method := fun a =>
  fold_left bind checks (Some a).

(** [for self.line_num, self.line in enumerate(self.lines, start=1)] *)
Fixpoint analyze_lines_from (num : Z) (ls : list string) : method := fun a =>
  match ls with
  | [] => Some a
  | l :: rest =>
      run_checks line_checks (set_line a num l) >>= analyze_lines_from (num + 1) rest
  end.

Definition analyze_lines : method := fun a =>
  analyze_lines_from 1 (lines a) a.

(** *** Naming *)

Definition is_not_snake (name : string) : bool :=
  re_match Pattern.not_snake name.

Definition is_not_camel (name : string) : bool :=
  re_match Pattern.not_camel name.

(** *** Tree checks *)

Definition check_class_name (a : CodeAnalyzer) (name : string) (lineno : Z)
  : CodeAnalyzer :=
  if is_not_camel name
  then issue_append a lineno "S008" ("Class name '" ++ name ++ "' should use CamelCase")
  else a.

Definition check_function_name (a : CodeAnalyzer) (name : string) (lineno : Z)
  : CodeAnalyzer :=
  if is_not_snake name
  then issue_append a lineno "S009"
                    ("Function name '" ++ name ++ "' should use snake_case")
  else a.

Definition check_argument (lineno : Z) (a : CodeAnalyzer) (arg_name : string)
  : CodeAnalyzer :=
  if is_not_snake arg_name
  then issue_append a lineno "S010"
                    ("Argument name '" ++ arg_name ++ "' should use snake_case")
  else a.

Definition is_store (c : expr_context) : bool :=
  match c with Store => true | _ => false end.

Definition check_variable (a : CodeAnalyzer) (inner_node : node) : CodeAnalyzer :=
  match inner_node with
  | Name var_name ctx lineno =>
      if is_store ctx && is_not_snake var_name
      then issue_append a lineno "S011"
             ("Variable name '" ++ var_name ++ "' in function should use snake_case")
      else a
  | _ => a
  end.

(** the loop over [node.args.defaults], left at the first display *)
Fixpoint check_defaults (a : CodeAnalyzer) (lineno : Z) (defaults : list node)
  : CodeAnalyzer :=
  match defaults with
  | [] => a
  | default :: rest =>
      if is_mutable_display default
      then issue_append a lineno "S012" "Default argument value is mutable"
      else check_defaults a lineno rest
  end.

(** the body of the loop of [analyze_tree] *)
Definition visit (a : CodeAnalyzer) (n : node) : CodeAnalyzer :=
  match n with
  | ClassDef name lineno _ => check_class_name a name lineno
  | FunctionDef name lineno node_args _ defaults _ =>
      let a1 := check_function_name a name lineno in
      let a2 := fold_left (check_argument lineno) (args node_args) a1 in
      let a3 := fold_left check_variable (walk n) a2 in
      check_defaults a3 lineno defaults
  | _ => a
  end.

Definition analyze_tree (a : CodeAnalyzer) : CodeAnalyzer :=
  fold_left visit (walk (tree a)) a.

(** *** The driver

    A file of the run: its path, the text [file.read()] returns and what
    [ast.parse] makes of it ([None] when it raises). *)

Record source_file : Type := mkSource {
  path : string;
  source : string;
  parsed : option node
}.

Definition load_file (u : source_file) : method := fun a =>
  match parsed u with
  | Some t => Some (set_source a (split_lines (rstrip (source u))) t)
  | None => None
  end.

Fixpoint analyze (files : list source_file) : method := fun a =>
  match files with
  | [] => Some a
  | u :: rest =>
      load_file u (set_file a (path u)) >>= analyze_lines
        >>= (fun a' => Some (analyze_tree a')) >>= analyze rest
  end.

(** [__init__]: [ast.parse('')] is a module without children. *)
Definition init : CodeAnalyzer := mkAnalyzer "" (Other []) [] 0 "" [].

Definition new (files : list source_file) : option CodeAnalyzer :=
  analyze files init.

(** [__str__] *)
Definition to_str (a : CodeAnalyzer) : string :=
  join (String "010" "") (map Issue.render (sorted (issues a))).

(** ** Correctness of a matcher

    What a continuation-passing matcher [m] owes to a language [P]: it
    succeeds only on a split of the subject that [P] and the continuation
    accept, and on every such split. *)

Definition ok {A} (o : option A) : Prop := o <> None.

Definition sound_for {A} (P : bool -> string -> string -> Prop)
           (m : bool -> string -> (bool -> string -> option A) -> option A)
  : Prop :=
  forall b s k, ok (m b s k) ->
    exists s1 s2, s = (s1 ++ s2)%string /\ P b s1 s2
                  /\ ok (k (b && is_empty s1) s2).

Definition complete_for {A} (P : bool -> string -> string -> Prop)
           (m : bool -> string -> (bool -> string -> option A) -> option A)
  : Prop :=
  forall b s1 s2 k, P b s1 s2 -> ok (k (b && is_empty s1) s2) ->
    ok (m b (s1 ++ s2)%string k).

(** ** Vocabulary of the statements *)

Fixpoint all_chars (p : ascii -> bool) (s : string) : bool :=
  match s with
  | EmptyString => true
  | String c s' => p c && all_chars p s'
  end.

Fixpoint any_char (p : ascii -> bool) (s : string) : bool :=
  match s with
  | EmptyString => false
  | String c s' => p c || any_char p s'
  end.

(** An identifier of the language, on the ASCII range: a letter or an
    underscore, then letters, digits and underscores. *)
Definition is_identifier (s : string) : bool :=
  match s with
  | EmptyString => false
  | String c _ => negb (is_digit c) && all_chars is_word s
  end.

Definition has_upper (s : string) : bool := any_char is_lu s.

Definition has_underscore (s : string) : bool := any_char (Ascii.eqb "_") s.

Definition starts_with_upper (s : string) : bool :=
  match s with
  | EmptyString => false
  | String c _ => is_lu c
  end.

(** The state [a] with the issues [l] added at the end of its list. *)
Definition add_issues (a : CodeAnalyzer) (l : list Issue.t) : CodeAnalyzer :=
  mkAnalyzer (file a) (tree a) (lines a) (line_num a) (line a) (issues a ++ l).

(** Text of the ASCII range. *)
Definition is_ascii (s : string) : bool := all_chars is_ascii_char s.

(** The numbers of the white-space characters below U+0100: tab to
    carriage return, the four separators, space, next line and no-break
    space. *)
Definition white_space : list N :=
  [9; 10; 11; 12; 13; 28; 29; 30; 31; 32; 133; 160]%N.

(** A line is blank when every character of it is white space, so that
    nothing is left of it after trimming. *)
Definition is_blank (l : string) : bool :=
  all_chars (fun c => existsb (N.eqb (ord c)) white_space) l.

(** The physical line number [n], counted from 1. *)
Definition physical_line (ls : list string) (n : Z) : string :=
  nth (Z.to_nat (n - 1)) ls EmptyString.

(** Line [n] is not blank, three lines come before it, and each of the
    three lines just before it is blank. *)
Definition excessive_blank_lines (ls : list string) (n : Z) : bool :=
  (4 <=? n)%Z
  && negb (is_blank (physical_line ls n))
  && is_blank (physical_line ls (n - 1))
  && is_blank (physical_line ls (n - 2))
  && is_blank (physical_line ls (n - 3)).

(** A line whose first character after the white space is the comment
    marker. *)
Fixpoint is_full_line_comment (l : string) : bool :=
  match l with
  | EmptyString => false
  | String c l' =>
      if Ascii.eqb c "#" then true
      else if is_space c then is_full_line_comment l' else false
  end.

Definition has_code (c : string) (i : Issue.t) : bool := Issue.code i =? c.

Definition newline : string := String "010" EmptyString.

(** Four blank lines, then [print(1)], and the tree of that module: an
    expression statement holding a call of a name on a constant. *)
Definition four_blank_lines_file : source_file :=
  mkSource "f.py"
           (newline ++ newline ++ newline ++ newline ++ "print(1)" ++ newline)
           (Some (Other [Other [Other [Name "print" Load 5; Other []]]])).

(** ** What a node contributes

    The issues one round of the loop of [analyze_tree] adds, as lists. *)

Definition class_name_issues (f name : string) (lineno : Z) : list Issue.t :=
  if is_not_camel name
  then [Issue.mk f lineno "S008" ("Class name '" ++ name ++ "' should use CamelCase")]
  else [].

Definition function_name_issues (f name : string) (lineno : Z) : list Issue.t :=
  if is_not_snake name
  then [Issue.mk f lineno "S009"
                 ("Function name '" ++ name ++ "' should use snake_case")]
  else [].

Definition argument_issue (f : string) (lineno : Z) (arg_name : string) : Issue.t :=
  Issue.mk f lineno "S010" ("Argument name '" ++ arg_name ++ "' should use snake_case").

Definition argument_issues (f : string) (lineno : Z) (args : list string)
  : list Issue.t :=
  map (argument_issue f lineno) (filter is_not_snake args).

Definition variable_issue (f var_name : string) (lineno : Z) : Issue.t :=
  Issue.mk f lineno "S011"
           ("Variable name '" ++ var_name ++ "' in function should use snake_case").

(** An assignment occurrence with a name that is not snake_case: a
    [Name] node in [Store] context. *)
Definition variable_issues (f : string) (n : node) : list Issue.t :=
  match n with
  | Name var_name ctx lineno =>
      if is_store ctx && is_not_snake var_name
      then [variable_issue f var_name lineno] else []
  | _ => []
  end.

Definition default_issues (f : string) (lineno : Z) (defaults : list node)
  : list Issue.t :=
  if existsb is_mutable_display defaults
  then [Issue.mk f lineno "S012" "Default argument value is mutable"]
  else [].

Definition node_issues (f : string) (n : node) : list Issue.t :=
  match n with
  | ClassDef name lineno _ => class_name_issues f name lineno
  | FunctionDef name lineno node_args _ defaults _ =>
      function_name_issues f name lineno
      ++ argument_issues f lineno (args node_args)
      ++ flat_map (variable_issues f) (walk n)
      ++ default_issues f lineno defaults
  | _ => []
  end.

Definition is_function (n : node) : bool :=
  match n with FunctionDef _ _ _ _ _ _ => true | _ => false end.

(** The nodes of a tree, the node itself first and then its children's
    nodes, child after child. *)
Fixpoint subnodes (n : node) : list node :=
  n :: match n with
       | ClassDef _ _ ch => flat_map subnodes ch
       | FunctionDef _ _ _ kd ds ch =>
           flat_map subnodes kd ++ flat_map subnodes ds ++ flat_map subnodes ch
       | Name _ _ _ => []
       | List_ ch | Set_ ch | Dict ch | Other ch => flat_map subnodes ch
       end.

(** The S011 issues by nesting: every offending assignment occurrence of
    the tree is met once, and reported [depth] times, where [depth]
    counts the function definitions around it. *)
Fixpoint variable_issues_nested (f : string) (depth : nat) (n : node)
  : list Issue.t :=
  match n with
  | ClassDef _ _ ch => flat_map (variable_issues_nested f depth) ch
  | FunctionDef _ _ _ kd ds ch =>
      flat_map (variable_issues_nested f (S depth)) kd
      ++ flat_map (variable_issues_nested f (S depth)) ds
      ++ flat_map (variable_issues_nested f (S depth)) ch
  | Name var_name ctx lineno =>
      if is_store ctx && is_not_snake var_name
      then repeat (variable_issue f var_name lineno) depth else []
  | List_ ch | Set_ ch | Dict ch | Other ch =>
      flat_map (variable_issues_nested f depth) ch
  end.

(** [d] copies of the list [l], one after the other. *)
Definition copies {X} (d : nat) (l : list X) : list X := concat (repeat l d).

(** A function inside a function, with one assignment to a name that is
    not snake_case in the inner one:
<<
def outer():
    def inner():
        Bad = 1
>>
    The assignment statement is a node with the target and the value as
    its children. *)
Definition nested_functions_file : source_file :=
  mkSource "f.py"
    ("def outer():" ++ newline ++ "    def inner():" ++ newline
     ++ "        Bad = 1" ++ newline)
    (Some (Other [FunctionDef "outer" 1 (plain_arguments []) [] []
                    [FunctionDef "inner" 2 (plain_arguments []) [] []
                       [Other [Name "Bad" Store 3; Other []]]]])).

(** ** Parameters the tree checks do not read *)

(** The default values of a function definition: those of its
    positional parameters and those of its keyword-only parameters. *)
Definition default_values (n : node) : list node :=
  match n with
  | FunctionDef _ _ _ kw_defaults defaults _ => defaults ++ kw_defaults
  | _ => []
  end.

(** The names of the parameters that are passed by position:
    positional-only ones and those that can also be passed by keyword. *)
Definition positional_names (n : node) : list string :=
  match n with
  | FunctionDef _ _ node_args _ _ _ => posonlyargs node_args ++ args node_args
  | _ => []
  end.

(** the definition of [g] with the one keyword-only parameter [a=[]],
    that is [def g] of the parameter list [*, a=[]], at line 1 *)
Definition keyword_only_default : node :=
  FunctionDef "g" 1 (mk_arguments [] [] None ["a"] None) [List_ []] []
              [Other []].

(** the definition [def f(posOnly, /): pass], at line 1 *)
Definition positional_only_parameter : node :=
  FunctionDef "f" 1 (mk_arguments ["posOnly"] [] None [] None) [] []
              [Other []].

(** A state whose tree is a module with the one statement [n]. *)
Definition in_module (n : node) : CodeAnalyzer :=
  set_source (set_file init "m.py") [EmptyString] (Other [n]).

(** ** The order of the report

    The order on strings is the one of [String.compare]: character by
    character, a proper prefix first.  [lex_lt] is the lexicographic
    order on (file, line_num, code, message). *)

Definition str_lt (x y : string) : Prop := String.compare x y = Lt.

Definition lex_lt (a b : Issue.t) : Prop :=
  str_lt (Issue.file a) (Issue.file b)
  \/ (Issue.file a = Issue.file b
      /\ ((Issue.line_num a < Issue.line_num b)%Z
          \/ (Issue.line_num a = Issue.line_num b
              /\ (str_lt (Issue.code a) (Issue.code b)
                  \/ (Issue.code a = Issue.code b
                      /\ str_lt (Issue.message a) (Issue.message b)))))).

Definition lex_le (a b : Issue.t) : Prop := a = b \/ lex_lt a b.

Definition no_newline (s : string) : bool :=
  negb (any_char (Ascii.eqb "010") s).

(** No line feed in the texts of an issue. *)
Definition one_line (i : Issue.t) : bool :=
  no_newline (Issue.file i) && no_newline (Issue.code i)
  && no_newline (Issue.message i).

(** A file without declarations and without anything for the line checks
    to report:
<<
import os
print(os.name)
>>
  *)
Definition clean_file : source_file :=
  mkSource "clean.py"
    ("import os" ++ newline ++ "print(os.name)" ++ newline)
    (Some (Other [Other [Other []];
                  Other [Other [Name "print" Load 2;
                                Other [Name "os" Load 2]]]])).

(** ** Issues and the file they belong to *)

Definition node_lineno (n : node) : option Z :=
  match n with
  | ClassDef _ lineno _ | FunctionDef _ lineno _ _ _ _ | Name _ _ lineno =>
      Some lineno
  | _ => None
  end.

Definition in_lines (count : nat) (k : Z) : bool :=
  (1 <=? k)%Z && (k <=? Z.of_nat count)%Z.

(** What the parser gives: the line of every node of the tree is a line
    of the text. *)
Definition linenos_within (count : nat) (t : node) : bool :=
  forallb (fun m => match node_lineno m with
                    | Some k => in_lines count k
                    | None => true
                    end) (subnodes t).

(** The lines [load_file] makes of the text of a file. *)
Definition loaded_lines (u : source_file) : list string :=
  split_lines (rstrip (source u)).

Definition well_parsed (u : source_file) : bool :=
  match parsed u with
  | Some t => linenos_within (length (loaded_lines u)) t
  | None => false
  end.

(** The issue names the file [u] and one of its lines. *)
Definition issue_of (u : source_file) (i : Issue.t) : Prop :=
  Issue.file i = path u
  /\ (1 <= Issue.line_num i <= Z.of_nat (length (loaded_lines u)))%Z.

(** A line check returns, and what it adds is at the current file and
    line. *)
Definition reports_at_line (m : method) : Prop :=
  forall a : CodeAnalyzer,
    (1 <= line_num a <= Z.of_nat (length (lines a)))%Z ->
    exists l, m a = Some (add_issues a l)
              /\ Forall (fun i => Issue.file i = file a
                                  /\ Issue.line_num i = line_num a) l.

(** A tree check adds issues at the current file and at the line of a
    node below the one it looks at. *)
Definition reports_at_nodes (a : CodeAnalyzer) (n : node) : Prop :=
  exists l, visit a n = add_issues a l
            /\ Forall (fun i => Issue.file i = file a
                                /\ exists m, In m (subnodes n)
                                             /\ node_lineno m = Some (Issue.line_num i)) l.

(** ** Further vocabulary *)

(** The number of characters at the head of [s] that satisfy [p]. *)
Fixpoint count_leading (p : ascii -> bool) (s : string) : nat :=
  match s with
  | EmptyString => 0
  | String c s' => if p c then S (count_leading p s') else 0
  end.

(** What is left of [s] after these characters. *)
Fixpoint drop_leading (p : ascii -> bool) (s : string) : string :=
  match s with
  | EmptyString => EmptyString
  | String c s' => if p c then drop_leading p s' else s
  end.

Definition is_class (n : node) : bool :=
  match n with ClassDef _ _ _ => true | _ => false end.

(** The state [a] with the issues [pre] in front of its own. *)
Definition rebase (pre : list Issue.t) (a : CodeAnalyzer) : CodeAnalyzer :=
  mkAnalyzer (file a) (tree a) (lines a) (line_num a) (line a)
             (pre ++ issues a).

(** A method does not look at the issues found so far. *)
Definition framed (m : method) : Prop :=
  forall pre a, m (rebase pre a) = option_map (rebase pre) (m a).

Definition parses (u : source_file) : bool :=
  match parsed u with Some _ => true | None => false end.

(** The issues of a file analyzed on its own. *)
Definition file_issues (u : source_file) : list Issue.t :=
  match analyze [u] init with
  | Some a => issues a
  | None => []
  end.

(** The text of a line before its first comment marker. *)
Fixpoint code_part (l : string) : string :=
  match l with
  | EmptyString => EmptyString
  | String c l' =>
      if Ascii.eqb "#" c then EmptyString else String c (code_part l')
  end.

(** The text of a line from its first comment marker on. *)
Fixpoint comment_part (l : string) : string :=
  match l with
  | EmptyString => EmptyString
  | String c l' => if Ascii.eqb "#" c then l else comment_part l'
  end.

Definition not_hash (c : ascii) : bool := negb (Ascii.eqb "#" c).

(** The code of the line ends in a semicolon and white space. *)
Definition ends_in_semicolon (l : string) : Prop :=
  exists p ws, code_part l = (p ++ String ";" ws)%string
               /\ all_chars is_space ws = true.

Fixpoint fold_string (s : string) : string :=
  match s with
  | EmptyString => EmptyString
  | String c s' => String (fold_case c) (fold_string s')
  end.

(** The comment of the line holds [todo], in any mix of cases. *)
Definition comment_has_todo (l : string) : Prop :=
  exists m t rest,
    comment_part l = (String "#" m ++ t ++ rest)%string
    /\ no_newline m = true /\ fold_string t = "todo".

(** [s] without the prefix [pre], when it starts with it. *)
Fixpoint strip_prefix (pre s : string) : option string :=
  match pre with
  | EmptyString => Some s
  | String c pre' =>
      match s with
      | String d s' => if Ascii.eqb c d then strip_prefix pre' s' else None
      | EmptyString => None
      end
  end.

(** After the white space at its head, the line goes on with the
    keyword and at least two white-space characters. *)
Definition keyword_and_spaces (keyword l : string) : bool :=
  match strip_prefix keyword (drop_leading is_space l) with
  | Some (String c1 (String c2 _)) => is_space c1 && is_space c2
  | _ => false
  end.

Fixpoint last_char (s : string) : option ascii :=
  match s with
  | EmptyString => None
  | String c EmptyString => Some c
  | String _ s' => last_char s'
  end.

(** The text does not end in white space. *)
Definition trimmed (s : string) : Prop :=
  match last_char s with
  | Some c => py_isspace c = false
  | None => True
  end.

(** Code that ends in a character that is not white space, with at most
    one space after it. *)
Definition code_too_close (code : string) : Prop :=
  exists p c, is_space c = false
              /\ (code = (p ++ String c "")%string
                  \/ code = (p ++ String c (String " " ""))%string).

(** The two cases in which the inline-comment pattern matches. *)
Definition inline_reported (l : string) : Prop :=
  (comment_part l <> "" /\ code_too_close (code_part l))
  \/ (exists r, comment_part l = String "#" (String "#" r)
                \/ comment_part l = String "#" (String " " (String "#" r))).

(** ** Finding the files

    What [load_dir] asks the operating system is given with the path:
    whether it is a file; or a directory, and then the triples of root,
    directory names and file names that [os.walk] yields for it; or
    neither. *)

Inductive path_kind : Type :=
| IsFile
| IsDir (walked : list (string * list string * list string))
| Neither.

Inductive load_result : Type :=
| Files (file_list : list string)
| ValueError (msg : string).

(** [s.endswith(suffix)] *)
Fixpoint ends_with (suffix s : string) : bool :=
  if String.eqb s suffix then true
  else match s with
       | EmptyString => false
       | String _ s' => ends_with suffix s'
       end.

(** [s.startswith(prefix)] *)
Definition starts_with (prefix s : string) : bool :=
  match strip_prefix prefix s with Some _ => true | None => false end.

(** [os.path.join(a, b)] of [posixpath] *)
Definition os_path_join (a b : string) : string :=
  if starts_with "/" b then b
  else if is_empty a || ends_with "/" a then (a ++ b)%string
       else (a ++ "/" ++ b)%string.

(** [sorted] on a list of strings *)
Fixpoint insert_path (x : string) (l : list string) : list string :=
  match l with
  | [] => [x]
  | y :: r => if String.ltb y x then y :: insert_path x r else x :: l
  end.

Fixpoint sorted_paths (l : list string) : list string :=
  match l with
  | [] => []
  | x :: r => insert_path x (sorted_paths r)
  end.

(** the body of the outer loop of [load_dir]: the files of one triple *)
Definition collect (file_list : list string)
           (entry : string * list string * list string) : list string :=
  let '(root, _, files) := entry in
  fold_left (fun acc f =>
               if ends_with ".py" f then acc ++ [os_path_join root f] else acc)
            files file_list.

Definition load_dir (path : string) (kind : path_kind) : load_result :=
  match kind with
  | IsFile => Files [path]
  | IsDir walked =>
      let file_list := fold_left collect walked [] in
      if (length file_list =? 0)%nat
      then ValueError "No files to check"
      else Files (sorted_paths file_list)
  | Neither => ValueError (path ++ " is not a file or a directory.")
  end.

Definition str_le (x y : string) : Prop := x = y \/ str_lt x y.

(** The file names of the triples, in the order of the walk. *)
Definition walked_files (walked : list (string * list string * list string))
  : list string :=
  flat_map (fun e => snd e) walked.

(** The paths of the Python files of the triples. *)
Definition python_paths (walked : list (string * list string * list string))
  : list string :=
  flat_map (fun e => map (os_path_join (fst (fst e)))
                         (filter (ends_with ".py") (snd e))) walked.

(** ** One issue for each check and line *)

(** A check that, at a line of the file, returns and adds nothing or one
    issue with the code [c] at the current file and line. *)
Definition adds_at_most (c : string) (m : method) : Prop :=
  forall a : CodeAnalyzer,
    (1 <= line_num a <= Z.of_nat (length (lines a)))%Z ->
    m a = Some a
    \/ exists msg, m a = Some (issue_append a (line_num a) c msg).

(** The line checks with their codes, in the order they run. *)
Definition coded_line_checks : list (string * method) :=
  [ ("S001", check_length); ("S002", check_indent); ("S003", check_semicolon);
    ("S004", check_inline); ("S005", check_todo); ("S006", check_blank_lines);
    ("S007", check_space_class_def) ].

(** * Properties *)

(** ** Strings *)

Section StringFacts.

Lemma sapp_nil_r (s : string) : (s ++ "")%string = s.
Proof. induction s as [|c s IH]; simpl; congruence. Qed.

Lemma sapp_assoc (s t u : string) :
  ((s ++ t) ++ u)%string = (s ++ (t ++ u))%string.
Proof. induction s as [|c s IH]; simpl; congruence. Qed.

Lemma slength_app (s t : string) :
  String.length (s ++ t) = String.length s + String.length t.
Proof. induction s as [|c s IH]; simpl; congruence. Qed.

Lemma is_empty_false (s : string) : is_empty s = false <-> s <> "".
Proof. destruct s; simpl; split; congruence. Qed.

Lemma is_empty_app (s t : string) :
  is_empty (s ++ t) = is_empty s && is_empty t.
Proof. destruct s; reflexivity. Qed.

End StringFacts.

(** ** The matcher finds a match exactly when the pattern has one *)


Lemma ok_or_else {A} (x y : option A) : ok (or_else x y) <-> ok x \/ ok y.
Proof.
  unfold ok, or_else; destruct x; split; intros H.
  - left; discriminate.
  - discriminate.
  - now right.
  - destruct H as [H|H]; [now elim H | exact H].
Qed.

Section Matcher.

Context {A : Type}.

Let cont : Type := bool -> string -> option A.

Lemma star_loop_sound P m (k : cont) :
  sound_for P m ->
  forall n b s, ok (star_loop m k n b s) ->
    exists s1 s2, s = (s1 ++ s2)%string /\ star P b s1 s2
                  /\ ok (k (b && is_empty s1) s2).
Proof.
  intros Hm n; induction n as [|n IH]; intros b s H; simpl in H.
  - exists "", s; rewrite andb_true_r; repeat split; [constructor | exact H].
  - apply ok_or_else in H; destruct H as [H|H].
    + apply Hm in H; destruct H as (u & v & -> & Hu & H).
      destruct (Nat.ltb_spec (String.length v) (String.length (u ++ v)))
        as [Hlt|Hge]; [| now elim H].
      apply IH in H; destruct H as (s1 & s2 & -> & Hs & H).
      assert (Hne : u <> "").
      { intros ->; simpl in Hlt; lia. }
      apply is_empty_false in Hne as He; rewrite He, andb_false_r in Hs, H.
      exists (u ++ s1)%string, s2; rewrite sapp_assoc; repeat split.
      * now constructor.
      * rewrite is_empty_app, He, andb_false_l, andb_false_r; exact H.
    + exists "", s; rewrite andb_true_r; repeat split; [constructor | exact H].
Qed.

Lemma star_loop_complete P m (k : cont) :
  complete_for P m ->
  forall b s1 s2, star P b s1 s2 ->
  forall n, String.length (s1 ++ s2) <= n ->
    ok (k (b && is_empty s1) s2) ->
    ok (star_loop m k n b (s1 ++ s2)%string).
Proof.
  intros Hm b s1 s2 Hs; induction Hs as [b q | b s1 s2 q H1 Hne Hs IH];
    intros n Hn Hk.
  - rewrite andb_true_r in Hk; destruct n; simpl; [exact Hk|].
    apply ok_or_else; now right.
  - destruct n as [|n].
    { destruct s1; [now elim Hne | simpl in Hn; lia]. }
    simpl; apply ok_or_else; left.
    rewrite sapp_assoc; apply Hm; [exact H1|].
    apply is_empty_false in Hne as He.
    assert (Hlt : String.length (s2 ++ q) < String.length (s1 ++ (s2 ++ q))).
    { rewrite (slength_app s1); destruct s1; [now elim Hne | simpl; lia]. }
    apply Nat.ltb_lt in Hlt as ->.
    rewrite He, andb_false_r; apply IH.
    + rewrite sapp_assoc, (slength_app s1) in Hn.
      destruct s1; [now elim Hne | simpl in Hn; lia].
    + rewrite is_empty_app, He, andb_false_l, andb_false_r in Hk; exact Hk.
Qed.

Lemma rmatch_sound (r : regex) : sound_for (A:=A) (rx r) (rmatch r).
Proof.
  induction r as [|p|r1 IH1 r2 IH2|r1 IH1 r2 IH2|r1 IH1| |];
    intros b s k H; simpl in H.
  - exists "", s; rewrite andb_true_r; simpl; auto.
  - destruct s as [|c s]; [now elim H|].
    destruct (p c) eqn:Hp; [| now elim H].
    exists (String c ""), s; rewrite andb_false_r; simpl; eauto.
  - apply IH1 in H; destruct H as (u & v & -> & Hu & H).
    apply IH2 in H; destruct H as (s1 & s2 & -> & Hs & H).
    exists (u ++ s1)%string, s2; rewrite sapp_assoc; repeat split.
    + simpl; exists u, s1; auto.
    + rewrite is_empty_app, andb_assoc; exact H.
  - apply ok_or_else in H; destruct H as [H|H];
      [apply IH1 in H | apply IH2 in H];
      destruct H as (s1 & s2 & -> & Hs & H); exists s1, s2; simpl; auto.
  - apply (star_loop_sound (rx r1)) in H; auto.
  - destruct b; [| now elim H].
    exists "", s; simpl; auto.
  - destruct (at_end s) eqn:He; [| now elim H].
    exists "", s; rewrite andb_true_r; simpl; auto.
Qed.

Lemma rmatch_complete (r : regex) : complete_for (A:=A) (rx r) (rmatch r).
Proof.
  induction r as [|p|r1 IH1 r2 IH2|r1 IH1 r2 IH2|r1 IH1| |];
    intros b s1 s2 k H Hk; simpl in H.
  - subst; rewrite andb_true_r in Hk; exact Hk.
  - destruct H as (c & -> & Hp); simpl; rewrite Hp.
    rewrite andb_false_r in Hk; exact Hk.
  - destruct H as (u & v & -> & Hu & Hv); simpl.
    rewrite sapp_assoc; apply IH1; [exact Hu|].
    apply IH2; [exact Hv|].
    rewrite is_empty_app, andb_assoc in Hk; exact Hk.
  - simpl; apply ok_or_else; destruct H as [H|H]; [left; now apply IH1 | right; now apply IH2].
  - simpl; apply (star_loop_complete (rx r1)); auto.
  - destruct H as [-> ->]; simpl; exact Hk.
  - destruct H as [-> He]; simpl; rewrite He.
    rewrite andb_true_r in Hk; exact Hk.
Qed.

End Matcher.

(** [re.match] succeeds exactly when some prefix of the subject is
    matched by the pattern. *)
Lemma re_match_iff (r : regex) (s : string) :
  re_match r s = true <->
  exists s1 s2, s = (s1 ++ s2)%string /\ rx r true s1 s2.
Proof.
  unfold re_match, re_match_rest; split.
  - intros H.
    destruct (rmatch_sound r true s (fun _ rest => Some rest)) as (s1 & s2 & E & Hr & _).
    + destruct (rmatch r true s _); [discriminate | discriminate].
    + eauto.
  - intros (s1 & s2 & -> & Hr).
    pose proof (rmatch_complete r true s1 s2 (fun _ rest => Some rest) Hr) as H.
    destruct (rmatch r true (s1 ++ s2) _); [reflexivity|].
    elim H; [discriminate | reflexivity].
Qed.

(** ** Repetitions of one character class *)

Lemma all_chars_app p (s t : string) :
  all_chars p (s ++ t) = all_chars p s && all_chars p t.
Proof.
  induction s as [|c s IH]; simpl; [reflexivity|].
  now rewrite IH, andb_assoc.
Qed.

Lemma any_char_app p (s t : string) :
  any_char p (s ++ t) = any_char p s || any_char p t.
Proof.
  induction s as [|c s IH]; simpl; [reflexivity|].
  now rewrite IH, orb_assoc.
Qed.

Lemma any_char_split p (s : string) :
  any_char p s = true <->
  exists u c v, s = (u ++ String c v)%string /\ p c = true.
Proof.
  split.
  - induction s as [|c s IH]; simpl; [discriminate|].
    destruct (p c) eqn:Hp.
    + intros _; exists "", c, s; auto.
    + simpl; intros H; destruct (IH H) as (u & d & v & -> & Hd).
      exists (String c u), d, v; auto.
  - intros (u & c & v & -> & Hp).
    rewrite any_char_app; simpl; rewrite Hp; apply orb_true_r.
Qed.

Lemma star_chr p b (s q : string) :
  star (rx (Chr p)) b s q <-> all_chars p s = true.
Proof.
  split.
  - induction 1 as [|b s1 s2 q (c & -> & Hp) _ _ IH]; [reflexivity|].
    simpl; now rewrite Hp, IH.
  - revert b; induction s as [|c s IH]; intros b H; [constructor|].
    simpl in H; apply andb_true_iff in H; destruct H as [Hp Hs].
    change (String c s) with (String c "" ++ s)%string.
    constructor; [simpl; eauto | discriminate | now apply IH].
Qed.

(** ** The two naming predicates *)

Ltac rx_unfold :=
  unfold Pattern.not_snake, Pattern.not_camel, Pattern.inline,
    Pattern.semicolon, Pattern.todo, Pattern.indent, Pattern.space_after,
    Re.lit, Re.not_lit, Re.lit_i, Re.dot, Re.s, Re.S', Re.w, Re.lu, Re.not_lu,
    Re.opt, Re.two_or_more in *;
  cbn [rx Re.word] in *.

Lemma is_not_snake_iff (name : string) :
  is_not_snake name = true <->
  exists u c v, name = (u ++ String c v)%string
                /\ all_chars is_word u = true /\ is_lu c = true.
Proof.
  unfold is_not_snake; rewrite re_match_iff; split.
  - intros (s1 & s2 & -> & H); rx_unfold.
    destruct H as (x & v & -> & (u & y & -> & Hu & (c & -> & Hc)) & _).
    apply star_chr in Hu.
    exists u, c, (v ++ s2)%string; repeat split; auto.
    now rewrite !sapp_assoc.
  - intros (u & c & v & -> & Hu & Hc).
    exists (u ++ String c "")%string, v; split.
    + now rewrite sapp_assoc.
    + rx_unfold; exists (u ++ String c "")%string, ""; repeat split.
      * now rewrite sapp_nil_r.
      * exists u, (String c ""); repeat split; [now apply star_chr | eauto].
      * constructor.
Qed.

Lemma is_not_camel_iff (name : string) :
  is_not_camel name = true <->
  (exists c t, name = String c t /\ is_lu c = false)
  \/ (exists u v, name = (u ++ String "_" v)%string
                  /\ all_chars is_word u = true).
Proof.
  unfold is_not_camel; rewrite re_match_iff; split.
  - intros (s1 & s2 & -> & H); rx_unfold; destruct H as [H|H].
    + destruct H as (x & v & -> & (c & -> & Hc) & _).
      left; exists c, (v ++ s2)%string; split; [reflexivity|].
      now apply negb_true_iff.
    + destruct H as (x & v & -> & (u & y & -> & Hu & (c & -> & Hc)) & _).
      apply star_chr in Hu; apply Ascii.eqb_eq in Hc; subst c.
      right; exists u, (v ++ s2)%string; split; auto.
      now rewrite !sapp_assoc.
  - intros [(c & t & -> & Hc) | (u & v & -> & Hu)].
    + exists (String c ""), t; split; [reflexivity|].
      rx_unfold; left; exists (String c ""), ""; repeat split.
      * exists c; split; [reflexivity | now apply negb_true_iff].
      * constructor.
    + exists (u ++ String "_" "")%string, v; split.
      * now rewrite sapp_assoc.
      * rx_unfold; right; exists (u ++ String "_" "")%string, ""; repeat split.
        -- now rewrite sapp_nil_r.
        -- exists u, (String "_" ""); repeat split; [now apply star_chr|].
           exists "_"%char; auto.
        -- constructor.
Qed.

Lemma identifier_word_chars (s : string) :
  is_identifier s = true -> s <> "" /\ all_chars is_word s = true.
Proof.
  destruct s as [|c s]; simpl; [discriminate|].
  intros H; apply andb_true_iff in H; destruct H as [_ H]; split;
    [discriminate | exact H].
Qed.

(** On identifiers the snake_case test is "has an uppercase letter". *)
Lemma is_not_snake_identifier (name : string) :
  is_identifier name = true -> is_not_snake name = has_upper name.
Proof.
  intros Hid; apply identifier_word_chars in Hid; destruct Hid as [_ Hw].
  apply eq_true_iff_eq; rewrite is_not_snake_iff; unfold has_upper.
  rewrite any_char_split; split.
  - intros (u & c & v & -> & _ & Hc); eauto.
  - intros (u & c & v & -> & Hc); exists u, c, v; repeat split; auto.
    rewrite all_chars_app in Hw; now apply andb_true_iff in Hw.
Qed.

(** C1, as the code has it: on an identifier the CamelCase test is true
    exactly when the first character is not an uppercase letter or the
    identifier has an underscore. *)
Theorem is_not_camel_identifier (name : string) :
  is_identifier name = true ->
  is_not_camel name = negb (starts_with_upper name) || has_underscore name.
Proof.
  intros Hid; apply identifier_word_chars in Hid; destruct Hid as [Hne Hw].
  apply eq_true_iff_eq; rewrite is_not_camel_iff, orb_true_iff, negb_true_iff.
  unfold has_underscore; rewrite any_char_split; split.
  - intros [(c & t & -> & Hc) | (u & v & -> & _)]; [left; exact Hc|].
    right; exists u, "_"%char, v; split; [reflexivity | apply Ascii.eqb_refl].
  - intros [H | (u & c & v & -> & Hc)].
    + destruct name as [|c t]; [now elim Hne|]; left; eauto.
    + apply Ascii.eqb_eq in Hc; subst c; right; exists u, v; split; auto.
      rewrite all_chars_app in Hw; now apply andb_true_iff in Hw.
Qed.

Lemma is_not_camel_identifier_witness :
  is_identifier "MyClass" = true
  /\ is_not_camel "MyClass"
     = negb (starts_with_upper "MyClass") || has_underscore "MyClass".
Proof.
  split; [reflexivity | apply is_not_camel_identifier; reflexivity].
Defined.

(** C1, as the spec has it, fails: [myClass] is an identifier with an
    uppercase letter and without an underscore, and the CamelCase test is
    true for it, not false. *)
Lemma is_not_camel_myClass :
  ~ (is_identifier "myClass" = true ->
     has_upper "myClass" = true -> has_underscore "myClass" = false ->
     is_not_camel "myClass" = false).
Proof. intros H; specialize (H eq_refl eq_refl eq_refl); discriminate H. Qed.

(** ** Line checks on given lines *)

(** What the inline-comment pattern accepts: text without a comment
    marker, then a character that is not white space, then the marker,
    with at most one space between the two. *)
Lemma inline_match_iff (l : string) :
  re_match Pattern.inline l = true <->
  exists p c rest,
    all_chars (fun x => negb (Ascii.eqb "#" x)) p = true
    /\ is_space c = false
    /\ (l = (p ++ String c (String "#" rest))%string
        \/ l = (p ++ String c (String " " (String "#" rest)))%string).
Proof.
  rewrite re_match_iff; split.
  - intros (s1 & s2 & -> & H); rx_unfold.
    destruct H as (x4 & h & -> & (x3 & o & -> & (x2 & c' & -> &
                    (x1 & p & -> & (-> & _) & Hp) & (c & -> & Hc)) & Ho) & (m & -> & Hm)).
    apply star_chr in Hp; apply negb_true_iff in Hc.
    apply Ascii.eqb_eq in Hm; subst m.
    exists p, c, s2; repeat split; auto.
    destruct Ho as [(sp & -> & Hsp)| ->].
    + apply Ascii.eqb_eq in Hsp; subst sp; right.
      cbn [append]; rewrite !sapp_assoc; reflexivity.
    + left; cbn [append]; rewrite !sapp_assoc; reflexivity.
  - intros (p & c & rest & Hp & Hc & [-> | ->]).
    + exists (p ++ String c (String "#" ""))%string, rest; split.
      * rewrite sapp_assoc; reflexivity.
      * rx_unfold.
        exists (p ++ String c "")%string, (String "#" ""); split;
          [rewrite sapp_assoc; reflexivity|]; split; [| exists "#"%char; auto].
        exists (p ++ String c "")%string, ""; split;
          [now rewrite sapp_nil_r|]; split; [| now right].
        exists p, (String c ""); split; [reflexivity|]; split.
        -- exists "", p; repeat split; now apply star_chr.
        -- exists c; split; [reflexivity | now apply negb_true_iff].
    + exists (p ++ String c (String " " (String "#" "")))%string, rest; split.
      * rewrite sapp_assoc; reflexivity.
      * rx_unfold.
        exists (p ++ String c (String " " ""))%string, (String "#" ""); split;
          [rewrite sapp_assoc; reflexivity|]; split; [| exists "#"%char; auto].
        exists (p ++ String c "")%string, (String " " ""); split;
          [rewrite sapp_assoc; reflexivity|]; split;
          [| left; exists " "%char; auto].
        exists p, (String c ""); split; [reflexivity|]; split.
        -- exists "", p; repeat split; now apply star_chr.
        -- exists c; split; [reflexivity | now apply negb_true_iff].
Qed.

(** C2: the line [## x] is a comment from its first character on, and the
    inline-comment check reports it: the class "\S" of the pattern
    accepts the comment marker itself, so two markers in a row, or two
    with one space between, count as code followed by a comment. *)
Theorem check_inline_full_line_comment (a : CodeAnalyzer) (n : Z) :
  is_full_line_comment "## x" = true
  /\ check_inline (set_line a n "## x")
     = Some (issue_append (set_line a n "## x") n "S004"
               "At least two spaces required before inline comments").
Proof. split; reflexivity. Qed.

(** C5: on the line [x=1;  # todo fix] the semicolon check reports S003
    and the TODO check reports S005, both at the number of the line, and
    the inline-comment check leaves the state as it is: two spaces come
    before the comment marker. *)
Theorem scenario_semicolon_todo (a : CodeAnalyzer) (n : Z) :
  let a' := set_line a n "x=1;  # todo fix" in
  check_semicolon a' = Some (issue_append a' n "S003" "Unnecessary semicolon")
  /\ check_todo a' = Some (issue_append a' n "S005" "TODO found")
  /\ check_inline a' = Some a'.
Proof. repeat split; reflexivity. Qed.

(** ** Trimming and blank lines *)

Lemma rstrip_empty (s : string) :
  is_empty (rstrip s) = all_chars py_isspace s.
Proof.
  induction s as [|c s IH]; simpl; [reflexivity|].
  rewrite <- IH; destruct (is_empty (rstrip s)), (py_isspace c); reflexivity.
Qed.

Lemma lstrip_all_space (s : string) :
  all_chars py_isspace (lstrip s) = all_chars py_isspace s.
Proof.
  induction s as [|c s IH]; simpl; [reflexivity|].
  destruct (py_isspace c) eqn:Hc; simpl; [exact IH | now rewrite Hc].
Qed.

Lemma py_isspace_white_space (c : ascii) :
  py_isspace c = existsb (N.eqb (ord c)) white_space.
Proof. destruct c as [[] [] [] [] [] [] [] []]; reflexivity. Qed.

Lemma is_blank_all_space (s : string) : is_blank s = all_chars py_isspace s.
Proof.
  unfold is_blank; induction s as [|c s IH]; [reflexivity|].
  cbn [all_chars]; now rewrite IH, py_isspace_white_space.
Qed.

Lemma strip_blank (s : string) : is_empty (strip s) = is_blank s.
Proof.
  unfold strip; now rewrite rstrip_empty, lstrip_all_space, is_blank_all_space.
Qed.

Lemma is_blank_app (s t : string) :
  is_blank (s ++ t) = is_blank s && is_blank t.
Proof. apply all_chars_app. Qed.

Lemma slice_three {A} (d : A) (l : list A) (lo : nat) :
  lo + 3 <= length l ->
  slice l lo (lo + 3) = [nth lo l d; nth (lo + 1) l d; nth (lo + 2) l d].
Proof.
  unfold slice; replace (lo + 3 - lo) with 3 by lia.
  revert l; induction lo as [|lo IH]; intros l H.
  - destruct l as [|x [|y [|z l]]]; simpl in *; try lia; reflexivity.
  - destruct l as [|x l]; simpl in *; [lia|].
    apply IH; lia.
Qed.

Lemma check_blank_lines_eq (a : CodeAnalyzer) :
  (line_num a <= Z.of_nat (length (lines a)))%Z ->
  check_blank_lines a
  = Some (if excessive_blank_lines (lines a) (line_num a)
          then issue_append a (line_num a) "S006"
                 "More than two blank lines used before this line"
          else a).
Proof.
  intros Hn; unfold check_blank_lines, excessive_blank_lines.
  replace (3 <=? line_num a - 1)%Z with (4 <=? line_num a)%Z
    by (destruct (Z.leb_spec 4 (line_num a)), (Z.leb_spec 3 (line_num a - 1));
        try reflexivity; lia).
  destruct (Z.leb_spec 4 (line_num a)) as [H4|H4]; [|reflexivity].
  set (k := Z.to_nat (line_num a - 1)).
  assert (Hk : k < length (lines a)) by (unfold k; lia).
  destruct (nth_error (lines a) k) as [l|] eqn:El;
    [| apply nth_error_None in El; lia].
  apply (nth_error_nth _ _ EmptyString) in El.
  replace (Z.to_nat (line_num a - 1 - 3)) with (k - 3) by (unfold k; lia).
  replace k with (k - 3 + 3) at 2 by (unfold k; lia).
  rewrite (slice_three EmptyString) by lia.
  unfold physical_line; fold k.
  replace (Z.to_nat (line_num a - 1 - 1)) with (k - 3 + 2) by (unfold k; lia).
  replace (Z.to_nat (line_num a - 2 - 1)) with (k - 3 + 1) by (unfold k; lia).
  replace (Z.to_nat (line_num a - 3 - 1)) with (k - 3) by (unfold k; lia).
  rewrite El; simpl join; simpl andb at 1.
  rewrite !strip_blank, !is_blank_app.
  replace (is_blank "") with true by reflexivity.
  set (b0 := is_blank l); set (b1 := is_blank (nth (k - 3) _ _));
    set (b2 := is_blank (nth (k - 3 + 1) _ _));
    set (b3 := is_blank (nth (k - 3 + 2) _ _)).
  destruct b0, b1, b2, b3; reflexivity.
Qed.

(** ** Adding issues to the state *)

Lemma add_issues_nil (a : CodeAnalyzer) : add_issues a [] = a.
Proof. destruct a; unfold add_issues; simpl; now rewrite app_nil_r. Qed.

Lemma add_issues_app (a : CodeAnalyzer) (l1 l2 : list Issue.t) :
  add_issues (add_issues a l1) l2 = add_issues a (l1 ++ l2).
Proof. unfold add_issues; simpl; now rewrite app_assoc. Qed.

Lemma fold_add_issues {X} (step : CodeAnalyzer -> X -> CodeAnalyzer)
      (g : string -> X -> list Issue.t) :
  (forall a x, step a x = add_issues a (g (file a) x)) ->
  forall xs a, fold_left step xs a = add_issues a (flat_map (g (file a)) xs).
Proof.
  intros Hstep xs; induction xs as [|x xs IH]; intros a; simpl.
  - now rewrite add_issues_nil.
  - now rewrite IH, Hstep, add_issues_app.
Qed.

(** ** The tree checks as lists of issues *)

Lemma check_argument_eq lineno (a : CodeAnalyzer) (arg_name : string) :
  check_argument lineno a arg_name
  = add_issues a (argument_issues (file a) lineno [arg_name]).
Proof.
  unfold check_argument, argument_issues; simpl.
  destruct (is_not_snake arg_name); [reflexivity | now rewrite add_issues_nil].
Qed.

Lemma argument_issues_flat (f : string) lineno (args : list string) :
  flat_map (fun x => argument_issues f lineno [x]) args
  = argument_issues f lineno args.
Proof.
  induction args as [|x args IH]; [reflexivity|].
  cbn [flat_map]; rewrite IH; unfold argument_issues; simpl.
  destruct (is_not_snake x); reflexivity.
Qed.

Lemma check_variable_eq (a : CodeAnalyzer) (n : node) :
  check_variable a n = add_issues a (variable_issues (file a) n).
Proof.
  destruct n; simpl; try now rewrite add_issues_nil.
  destruct (is_store ctx && is_not_snake id);
    [reflexivity | now rewrite add_issues_nil].
Qed.

Lemma check_defaults_eq (a : CodeAnalyzer) lineno (defaults : list node) :
  check_defaults a lineno defaults
  = add_issues a (default_issues (file a) lineno defaults).
Proof.
  unfold default_issues; induction defaults as [|d ds IH]; simpl.
  - now rewrite add_issues_nil.
  - destruct (is_mutable_display d); [reflexivity | exact IH].
Qed.

Lemma visit_eq (a : CodeAnalyzer) (n : node) :
  visit a n = add_issues a (node_issues (file a) n).
Proof.
  destruct n; simpl; try now rewrite add_issues_nil.
  - unfold check_class_name, class_name_issues.
    destruct (is_not_camel name); [reflexivity | now rewrite add_issues_nil].
  - rewrite check_defaults_eq.
    rewrite (fold_add_issues check_variable variable_issues check_variable_eq).
    rewrite (fold_add_issues (check_argument lineno)
               (fun f x => argument_issues f lineno [x])
               (check_argument_eq lineno)).
    rewrite argument_issues_flat.
    assert (E : check_function_name a name lineno
                = add_issues a (function_name_issues (file a) name lineno)).
    { unfold check_function_name, function_name_issues.
      destruct (is_not_snake name); [reflexivity | now rewrite add_issues_nil]. }
    rewrite E, !add_issues_app; reflexivity.
Qed.

Lemma analyze_tree_eq (a : CodeAnalyzer) :
  analyze_tree a
  = add_issues a (flat_map (node_issues (file a)) (walk (tree a))).
Proof. unfold analyze_tree; now rewrite (fold_add_issues visit node_issues visit_eq). Qed.

(** ** Filtering a list of issues by code *)

Lemma filter_code_all (c : string) (l : list Issue.t) :
  Forall (fun i => Issue.code i = c) l -> filter (has_code c) l = l.
Proof.
  induction 1 as [|i l Hi _ IH]; simpl; [reflexivity|].
  unfold has_code at 1; rewrite Hi, String.eqb_refl; now rewrite IH.
Qed.

Lemma filter_code_none (c c' : string) (l : list Issue.t) :
  c' <> c -> Forall (fun i => Issue.code i = c') l -> filter (has_code c) l = [].
Proof.
  intros Hc; induction 1 as [|i l Hi _ IH]; simpl; [reflexivity|].
  unfold has_code at 1; rewrite Hi.
  apply String.eqb_neq in Hc; now rewrite Hc.
Qed.

Lemma filter_flat_map {X Y} (p : Y -> bool) (g : X -> list Y) (xs : list X) :
  filter p (flat_map g xs) = flat_map (fun x => filter p (g x)) xs.
Proof.
  induction xs as [|x xs IH]; simpl; [reflexivity|].
  now rewrite filter_app, IH.
Qed.

Lemma class_name_code f name lineno :
  Forall (fun i => Issue.code i = "S008") (class_name_issues f name lineno).
Proof. unfold class_name_issues; destruct (is_not_camel name); repeat constructor. Qed.

Lemma function_name_code f name lineno :
  Forall (fun i => Issue.code i = "S009") (function_name_issues f name lineno).
Proof. unfold function_name_issues; destruct (is_not_snake name); repeat constructor. Qed.

Lemma argument_code f lineno args :
  Forall (fun i => Issue.code i = "S010") (argument_issues f lineno args).
Proof.
  unfold argument_issues; induction (filter is_not_snake args); simpl;
    constructor; auto.
Qed.

Lemma variable_code f (ns : list node) :
  Forall (fun i => Issue.code i = "S011") (flat_map (variable_issues f) ns).
Proof.
  induction ns as [|n ns IH]; simpl; [constructor|].
  apply Forall_app; split; [| exact IH].
  destruct n; simpl; try constructor.
  destruct (is_store ctx && is_not_snake id); repeat constructor.
Qed.

Lemma default_code f lineno ds :
  Forall (fun i => Issue.code i = "S012") (default_issues f lineno ds).
Proof. unfold default_issues; destruct (existsb _ ds); repeat constructor. Qed.

Ltac filter_codes :=
  repeat rewrite filter_app;
  repeat first
    [ rewrite (filter_code_all _ _ (class_name_code _ _ _))
    | rewrite (filter_code_all _ _ (function_name_code _ _ _))
    | rewrite (filter_code_all _ _ (argument_code _ _ _))
    | rewrite (filter_code_all _ _ (variable_code _ _))
    | rewrite (filter_code_all _ _ (default_code _ _ _))
    | rewrite (filter_code_none _ "S008" (class_name_issues _ _ _))
        by first [discriminate | apply class_name_code]
    | rewrite (filter_code_none _ "S009" (function_name_issues _ _ _))
        by first [discriminate | apply function_name_code]
    | rewrite (filter_code_none _ "S010" (argument_issues _ _ _))
        by first [discriminate | apply argument_code]
    | rewrite (filter_code_none _ "S011" (flat_map (variable_issues _) _))
        by first [discriminate | apply variable_code]
    | rewrite (filter_code_none _ "S012" (default_issues _ _ _))
        by first [discriminate | apply default_code] ];
  rewrite ?app_nil_r; simpl app.

Lemma node_issues_S010 f (n : node) :
  filter (has_code "S010") (node_issues f n)
  = match n with
    | FunctionDef _ lineno node_args _ _ _ =>
        argument_issues f lineno (args node_args)
    | _ => []
    end.
Proof.
  destruct n; simpl; try reflexivity; filter_codes; reflexivity.
Qed.

Lemma node_issues_S011 f (n : node) :
  filter (has_code "S011") (node_issues f n)
  = if is_function n then flat_map (variable_issues f) (walk n) else [].
Proof.
  destruct n; simpl; try reflexivity; filter_codes; reflexivity.
Qed.

Lemma node_issues_S012 f (n : node) :
  filter (has_code "S012") (node_issues f n)
  = match n with
    | FunctionDef _ lineno _ _ defaults _ => default_issues f lineno defaults
    | _ => []
    end.
Proof.
  destruct n; simpl; try reflexivity; filter_codes; reflexivity.
Qed.

(** ** Trees: induction, and the walk against the nodes of the tree *)

Lemma node_ind (P : node -> Prop) :
  (forall name lineno ch, Forall P ch -> P (ClassDef name lineno ch)) ->
  (forall name lineno node_args kd ds ch,
      Forall P kd -> Forall P ds -> Forall P ch ->
      P (FunctionDef name lineno node_args kd ds ch)) ->
  (forall id ctx lineno, P (Name id ctx lineno)) ->
  (forall ch, Forall P ch -> P (List_ ch)) ->
  (forall ch, Forall P ch -> P (Set_ ch)) ->
  (forall ch, Forall P ch -> P (Dict ch)) ->
  (forall ch, Forall P ch -> P (Other ch)) ->
  forall n, P n.
Proof.
  intros HC HF HN HL HS HD HO.
  fix IH 1; intros n.
  pose (all := fix all (l : list node) : Forall P l :=
          match l with
          | [] => Forall_nil P
          | x :: r => Forall_cons x (IH x) (all r)
          end).
  destruct n as [name ln ch|name ln node_args kd ds ch|id ctx ln|ch|ch|ch|ch].
  - apply HC, all.
  - apply HF; apply all.
  - apply HN.
  - apply HL, all.
  - apply HS, all.
  - apply HD, all.
  - apply HO, all.
Qed.

Lemma size_children (n : node) :
  size n = S (list_sum (map size (iter_child_nodes n))).
Proof.
  assert (E : forall l : list node,
             (fix sizes (l : list node) : nat :=
                match l with
                | [] => 0
                | x :: r => size x + sizes r
                end) l = list_sum (map size l)).
  { intros l; induction l as [|x l IH]; simpl; congruence. }
  destruct n; simpl; rewrite ?E, ?map_app, ?list_sum_app; reflexivity.
Qed.

Lemma subnodes_children (n : node) :
  subnodes n = n :: flat_map subnodes (iter_child_nodes n).
Proof. destruct n; simpl; rewrite ?flat_map_app; reflexivity. Qed.

Lemma walk_queue_subnodes (fuel : nat) (todo : list node) :
  list_sum (map size todo) <= fuel ->
  Permutation (walk_queue fuel todo) (flat_map subnodes todo).
Proof.
  revert todo; induction fuel as [|fuel IH]; intros todo H.
  - destruct todo as [|n rest]; [constructor|].
    simpl in H; rewrite size_children in H; lia.
  - destruct todo as [|n rest]; [constructor|].
    simpl in H; rewrite size_children in H.
    cbn [walk_queue flat_map]; rewrite subnodes_children.
    simpl; constructor.
    rewrite IH by (rewrite map_app, list_sum_app; lia).
    rewrite flat_map_app; apply Permutation_app_comm.
Qed.

(** The walk yields every node of the tree once. *)
Lemma walk_subnodes (n : node) : Permutation (walk n) (subnodes n).
Proof.
  unfold walk; rewrite walk_queue_subnodes by (simpl; lia).
  simpl; now rewrite app_nil_r.
Qed.

Lemma flat_map_perm {X Y} (g h : X -> list Y) (xs ys : list X) :
  Permutation xs ys -> (forall x, Permutation (g x) (h x)) ->
  Permutation (flat_map g xs) (flat_map h ys).
Proof.
  intros Hp Hg; rewrite Hp; clear Hp xs.
  induction ys as [|y ys IH]; simpl; [constructor | now apply Permutation_app].
Qed.

Lemma flat_map_nested {X Y W} (g : Y -> list W) (h : X -> list Y) (xs : list X) :
  flat_map g (flat_map h xs) = flat_map (fun x => flat_map g (h x)) xs.
Proof.
  induction xs as [|x xs IH]; simpl; [reflexivity|].
  now rewrite flat_map_app, IH.
Qed.

(** ** Copies of a list *)

Lemma copies_nil {X} (d : nat) : copies d (@nil X) = [].
Proof. unfold copies; induction d; simpl; auto. Qed.

Lemma copies_succ {X} (d : nat) (l : list X) : copies (S d) l = l ++ copies d l.
Proof. reflexivity. Qed.

Lemma copies_one {X} (d : nat) (x : X) : copies d [x] = repeat x d.
Proof. unfold copies; induction d; simpl; congruence. Qed.

Lemma copies_app {X} (d : nat) (l1 l2 : list X) :
  Permutation (copies d (l1 ++ l2)) (copies d l1 ++ copies d l2).
Proof.
  induction d as [|d IH]; [constructor|].
  rewrite !copies_succ, IH, <- !app_assoc.
  apply Permutation_app_head.
  rewrite !app_assoc; apply Permutation_app_tail, Permutation_app_comm.
Qed.

(** ** Assignments to names, counted by the functions around them *)

Section Nesting.

Variable f : string.

Let in_node (n : node) : list Issue.t :=
  flat_map (variable_issues f) (subnodes n).

Let by_function (n : node) : list Issue.t :=
  flat_map (fun m => if is_function m then in_node m else []) (subnodes n).

Let agrees (n : node) : Prop :=
  forall d, Permutation (by_function n ++ copies d (in_node n))
                        (variable_issues_nested f d n).

Lemma nesting_children (ch : list node) :
  Forall agrees ch ->
  forall d, Permutation (flat_map by_function ch ++ copies d (flat_map in_node ch))
                        (flat_map (variable_issues_nested f d) ch).
Proof.
  induction 1 as [|x ch Hx _ IH]; intros d; simpl.
  - now rewrite copies_nil.
  - rewrite copies_app, <- (Hx d), <- (IH d), <- !app_assoc.
    apply Permutation_app_head.
    rewrite !app_assoc; apply Permutation_app_tail, Permutation_app_comm.
Qed.

Lemma in_node_children (n : node) :
  in_node n = variable_issues f n ++ flat_map in_node (iter_child_nodes n).
Proof.
  unfold in_node; rewrite subnodes_children; simpl.
  now rewrite flat_map_nested.
Qed.

Lemma by_function_children (n : node) :
  by_function n
  = (if is_function n then in_node n else [])
    ++ flat_map by_function (iter_child_nodes n).
Proof.
  unfold by_function; rewrite subnodes_children; simpl.
  now rewrite flat_map_nested.
Qed.

Lemma nesting_agrees (n : node) : agrees n.
Proof.
  induction n as [name ln ch IH|name ln node_args kd ds ch IHk IHd IHc|id ctx ln
                 |ch IH|ch IH|ch IH|ch IH] using node_ind;
    intros d; rewrite by_function_children, in_node_children;
    cbn [is_function iter_child_nodes variable_issues variable_issues_nested app];
    try (now apply nesting_children).
  - rewrite <- !flat_map_app.
    assert (Hk : Forall agrees (kd ++ ds ++ ch))
      by (repeat (apply Forall_app; split); auto).
    rewrite <- (nesting_children _ Hk (S d)), copies_succ.
    set (x := flat_map in_node (kd ++ ds ++ ch)).
    set (y := flat_map by_function (kd ++ ds ++ ch)).
    rewrite <- !app_assoc; apply Permutation_app_swap_app.
  - rewrite app_nil_r.
    destruct (is_store ctx && is_not_snake id).
    + now rewrite copies_one.
    + now rewrite copies_nil.
Qed.

Lemma nesting_top (n : node) :
  Permutation (by_function n) (variable_issues_nested f 0 n).
Proof.
  rewrite <- (nesting_agrees n 0); unfold copies; simpl; now rewrite app_nil_r.
Qed.

End Nesting.

(** ** The tree checks, claim by claim *)

(** C4, as the code has it: a round of the loop on a function definition
    adds the S012 issue once, at the line of the definition, when one of
    the values in [args.defaults], the default values of the positional
    parameters, is a list, set or dict display, and not at all
    otherwise, whatever the number of such values and whatever the
    default values of the keyword-only parameters are; over a whole tree
    the S012 issues are these, function definition by function
    definition, and the walk yields every node of the tree once. *)
Theorem mutable_default_once (a : CodeAnalyzer) :
  (forall name lineno node_args kw_defaults defaults body,
      exists l,
        visit a (FunctionDef name lineno node_args kw_defaults defaults body)
        = add_issues a l
        /\ filter (has_code "S012") l
           = (if existsb is_mutable_display defaults
              then [Issue.mk (file a) lineno "S012"
                             "Default argument value is mutable"]
              else [])
        /\ length (filter (has_code "S012") l) <= 1)
  /\ exists l,
       analyze_tree a = add_issues a l
       /\ filter (has_code "S012") l
          = flat_map
              (fun n =>
                 match n with
                 | FunctionDef _ lineno _ _ defaults _ =>
                     if existsb is_mutable_display defaults
                     then [Issue.mk (file a) lineno "S012"
                                    "Default argument value is mutable"]
                     else []
                 | _ => []
                 end) (walk (tree a))
       /\ Permutation (walk (tree a)) (subnodes (tree a)).
Proof.
  split.
  - intros name lineno node_args kw_defaults defaults body.
    eexists; split; [apply visit_eq|].
    rewrite node_issues_S012; unfold default_issues; split; [reflexivity|].
    destruct (existsb is_mutable_display defaults); simpl; lia.
  - eexists; split; [apply analyze_tree_eq|]; split; [| apply walk_subnodes].
    rewrite filter_flat_map; apply flat_map_ext; intros n.
    now rewrite node_issues_S012.
Qed.

(** C4, as the spec has it, fails: in the definition of [g] with the one
    keyword-only parameter [a=[]] a default value is a list display, and
    no S012 issue is added for the function. *)
Lemma keyword_only_default_unreported :
  ~ (existsb is_mutable_display (default_values keyword_only_default) = true ->
     exists i,
       In i (issues (analyze_tree (in_module keyword_only_default)))
       /\ Issue.code i = "S012").
Proof.
  intros H; destruct (H eq_refl) as (i & Hi & _); exact Hi.
Qed.

(** C7, as the code has it: a round of the loop on a function definition
    adds one S010 issue for each name in [args.args], the parameters
    that can be passed by position or by keyword, that fails the
    snake_case test, in the order of the parameters, each at the line of
    the definition and with the name in its message; the other
    parameter names of the definition (positional-only, keyword-only,
    starred) play no part.  Over a whole tree the S010 issues are
    these, function definition by function definition, and the walk
    yields every node of the tree once.  On an identifier, failing the
    test is having an uppercase letter. *)
Theorem argument_issue_per_argument (a : CodeAnalyzer) :
  (forall name lineno node_args kw_defaults defaults body,
      exists l,
        visit a (FunctionDef name lineno node_args kw_defaults defaults body)
        = add_issues a l
        /\ filter (has_code "S010") l
           = map (fun arg_name =>
                    Issue.mk (file a) lineno "S010"
                      ("Argument name '" ++ arg_name ++ "' should use snake_case"))
                 (filter is_not_snake (args node_args)))
  /\ (exists l,
       analyze_tree a = add_issues a l
       /\ filter (has_code "S010") l
          = flat_map
              (fun n =>
                 match n with
                 | FunctionDef _ lineno node_args _ _ _ =>
                     map (fun arg_name =>
                            Issue.mk (file a) lineno "S010"
                              ("Argument name '" ++ arg_name
                               ++ "' should use snake_case"))
                         (filter is_not_snake (args node_args))
                 | _ => []
                 end) (walk (tree a))
       /\ Permutation (walk (tree a)) (subnodes (tree a)))
  /\ (forall arg_name,
       is_identifier arg_name = true ->
       is_not_snake arg_name = has_upper arg_name).
Proof.
  split; [|split].
  - intros name lineno node_args kw_defaults defaults body.
    eexists; split; [apply visit_eq|].
    now rewrite node_issues_S010.
  - eexists; split; [apply analyze_tree_eq|]; split; [| apply walk_subnodes].
    rewrite filter_flat_map; apply flat_map_ext; intros n.
    rewrite node_issues_S010; destruct n; reflexivity.
  - apply is_not_snake_identifier.
Qed.

Lemma argument_issue_per_argument_witness :
  let n := FunctionDef "f" 1 (plain_arguments ["argName"; "ok_name"]) [] []
                       [Other []] in
  is_identifier "argName" = true
  /\ is_not_snake "argName" = has_upper "argName"
  /\ exists l,
       visit init n = add_issues init l
       /\ filter (has_code "S010") l
          = [Issue.mk "" 1 "S010" "Argument name 'argName' should use snake_case"].
Proof.
  intros n; split; [reflexivity|]; split.
  - apply (proj2 (proj2 (argument_issue_per_argument init))); reflexivity.
  - destruct (proj1 (argument_issue_per_argument init)
                "f" 1%Z (plain_arguments ["argName"; "ok_name"]) [] [] [Other []])
      as (l & E & F).
    exists l; split; [exact E | rewrite F; reflexivity].
Defined.

(** C7, as the spec has it, fails: in [def f(posOnly, /)] the name of
    the positional parameter fails the snake_case test, and no S010
    issue is added for the function. *)
Lemma positional_only_name_unreported :
  ~ (forall arg_name,
        In arg_name (positional_names positional_only_parameter) ->
        is_not_snake arg_name = true ->
        exists i,
          In i (issues (analyze_tree (in_module positional_only_parameter)))
          /\ Issue.code i = "S010").
Proof.
  intros H.
  destruct (H "posOnly" (or_introl eq_refl) eq_refl) as (i & Hi & _); exact Hi.
Qed.

(** C10: the S011 issues that [analyze_tree] adds are, up to their order,
    those of one pass over the tree that reports every offending
    assignment occurrence once for each function definition around it;
    an offending assignment in a function inside a function is reported
    twice, and the report keeps both lines. *)
Theorem variable_issue_per_enclosing_function :
  (forall a : CodeAnalyzer,
      exists l,
        analyze_tree a = add_issues a l
        /\ Permutation (filter (has_code "S011") l)
                       (variable_issues_nested (file a) 0 (tree a)))
  /\ exists a,
       new [nested_functions_file] = Some a
       /\ issues a
          = [Issue.mk "f.py" 3 "S011"
               "Variable name 'Bad' in function should use snake_case";
             Issue.mk "f.py" 3 "S011"
               "Variable name 'Bad' in function should use snake_case"]
       /\ to_str a
          = ("f.py: Line 3: S011 Variable name 'Bad' in function should use snake_case"
             ++ newline
             ++ "f.py: Line 3: S011 Variable name 'Bad' in function should use snake_case")%string.
Proof.
  split.
  - intros a; eexists; split; [apply analyze_tree_eq|].
    rewrite filter_flat_map, <- nesting_top.
    apply flat_map_perm; [apply walk_subnodes|].
    intros n; rewrite node_issues_S011.
    destruct (is_function n); [| constructor].
    apply flat_map_perm; [apply walk_subnodes | reflexivity].
  - eexists; split; [vm_compute; reflexivity|].
    split; vm_compute; reflexivity.
Qed.

(** ** The order of the issues and the sort *)

Lemma str_lt_irrefl (x : string) : ~ str_lt x x.
Proof. exact (StrictOrder_Irreflexive (R := String_as_OT.lt) x). Qed.

Lemma str_lt_trans (x y z : string) : str_lt x y -> str_lt y z -> str_lt x z.
Proof. exact (StrictOrder_Transitive (R := String_as_OT.lt) x y z). Qed.

Lemma str_lt_total (x y : string) : str_lt x y \/ x = y \/ str_lt y x.
Proof.
  destruct (String_as_OT.compare_spec x y) as [H|H|H]; auto.
Qed.

Lemma str_ltb_iff (x y : string) : String.ltb x y = true <-> str_lt x y.
Proof.
  unfold String.ltb, str_lt; destruct (String.compare x y); split;
    congruence.
Qed.

Lemma issue_ltb_iff (a b : Issue.t) : Issue.ltb a b = true <-> lex_lt a b.
Proof.
  unfold Issue.ltb, lex_lt.
  destruct (String.eqb_spec (Issue.file a) (Issue.file b)) as [Ef|Nf]; simpl.
  2:{ rewrite str_ltb_iff; intuition. }
  destruct (Z.eqb_spec (Issue.line_num a) (Issue.line_num b)) as [El|Nl]; simpl.
  2:{ rewrite Z.ltb_lt; rewrite Ef; intuition.
      exfalso; eapply str_lt_irrefl; eauto. }
  destruct (String.eqb_spec (Issue.code a) (Issue.code b)) as [Ec|Nc]; simpl.
  2:{ rewrite str_ltb_iff, Ef, El; intuition; try lia.
      exfalso; eapply str_lt_irrefl; eauto. }
  destruct (String.eqb_spec (Issue.message a) (Issue.message b)) as [Em|Nm]; simpl.
  2:{ rewrite str_ltb_iff, Ef, El, Ec; intuition; try lia;
      exfalso; eapply str_lt_irrefl; eauto. }
  rewrite Ef, El, Ec, Em; split; [discriminate|].
  intuition; try lia; exfalso; eapply str_lt_irrefl; eauto.
Qed.

Lemma lex_lt_irrefl (a : Issue.t) : ~ lex_lt a a.
Proof.
  unfold lex_lt; intuition; try lia; eapply str_lt_irrefl; eauto.
Qed.

Lemma lex_lt_trans (a b c : Issue.t) : lex_lt a b -> lex_lt b c -> lex_lt a c.
Proof.
  destruct a as [fa la ca ma], b as [fb lb cb mb], c as [fc lc cc mc].
  unfold lex_lt; simpl.
  intros [H1|[-> [H1|[-> [H1|[-> H1]]]]]] [H2|[E2 [H2|[E3 [H2|[E4 H2]]]]]];
    subst; eauto 8 using str_lt_trans.
  right; split; auto; left; lia.
Qed.

Lemma lex_total (a b : Issue.t) : lex_lt a b \/ a = b \/ lex_lt b a.
Proof.
  destruct a as [fa la ca ma], b as [fb lb cb mb]; unfold lex_lt; simpl.
  destruct (str_lt_total fa fb) as [H|[->|H]]; auto.
  destruct (Z.lt_total la lb) as [H|[->|H]]; auto 6.
  destruct (str_lt_total ca cb) as [H|[->|H]]; auto 8.
  destruct (str_lt_total ma mb) as [H|[->|H]]; auto 10.
Qed.

Lemma lex_le_trans (a b c : Issue.t) : lex_le a b -> lex_le b c -> lex_le a c.
Proof.
  intros [->|H1] [->|H2]; unfold lex_le; eauto using lex_lt_trans.
Qed.

Lemma issue_ltb_false (a b : Issue.t) : Issue.ltb a b = false -> lex_le b a.
Proof.
  intros H; destruct (lex_total a b) as [L|[->|L]].
  - apply issue_ltb_iff in L; congruence.
  - now left.
  - now right.
Qed.

Lemma insert_issue_perm (x : Issue.t) (l : list Issue.t) :
  Permutation (x :: l) (insert_issue x l).
Proof.
  induction l as [|y l IH]; simpl; [reflexivity|].
  destruct (Issue.ltb y x); [| reflexivity].
  rewrite perm_swap; now constructor.
Qed.

Lemma sorted_perm (l : list Issue.t) : Permutation l (sorted l).
Proof.
  induction l as [|x l IH]; simpl; [constructor|].
  rewrite <- insert_issue_perm; now constructor.
Qed.

Lemma insert_issue_sorted (x : Issue.t) (l : list Issue.t) :
  StronglySorted lex_le l -> StronglySorted lex_le (insert_issue x l).
Proof.
  induction 1 as [|y l Hs IH Hy]; simpl; [repeat constructor|].
  destruct (Issue.ltb y x) eqn:E.
  - constructor; [exact IH|].
    rewrite <- insert_issue_perm; constructor; [| exact Hy].
    right; now apply issue_ltb_iff.
  - apply issue_ltb_false in E.
    constructor; [now constructor|].
    constructor; [exact E|].
    eapply Forall_impl; [| exact Hy].
    intros z Hz; eapply lex_le_trans; eauto.
Qed.

Lemma sorted_sorted (l : list Issue.t) : StronglySorted lex_le (sorted l).
Proof.
  induction l as [|x l IH]; simpl; [constructor | now apply insert_issue_sorted].
Qed.

(** In a sorted list nothing smaller comes after an element. *)
Lemma sorted_no_smaller_after (l l1 l2 : list Issue.t) (x y : Issue.t) :
  StronglySorted lex_le l -> l = l1 ++ y :: l2 -> lex_lt x y -> ~ In x l2.
Proof.
  intros Hs -> Hlt Hin.
  induction l1 as [|z l1 IH]; simpl in Hs; inversion Hs as [|? ? Hs' Hall]; subst.
  - rewrite Forall_forall in Hall; destruct (Hall x Hin) as [->|H].
    + now apply lex_lt_irrefl in Hlt.
    + eapply lex_lt_irrefl, lex_lt_trans; eauto.
  - now apply IH.
Qed.

Lemma issue_ltb_irrefl (i : Issue.t) : Issue.ltb i i = false.
Proof.
  destruct (Issue.ltb i i) eqn:E; [| reflexivity].
  apply issue_ltb_iff in E; now apply lex_lt_irrefl in E.
Qed.

(** C3: the report is the sorted list of the issues, rendered; the sorted
    list is in lexicographic order of (file, line_num, code, message) and
    is a rearrangement of the issues, so that equal issues are all kept;
    an issue of [a.py] at line 100 comes before every issue of [b.py] at
    line 1, and never after one. *)
Theorem report_order :
  (forall a : CodeAnalyzer,
      to_str a = join newline (map Issue.render (sorted (issues a)))
      /\ StronglySorted lex_le (sorted (issues a))
      /\ Permutation (issues a) (sorted (issues a)))
  /\ (forall i : Issue.t, sorted [i; i] = [i; i])
  /\ (forall (a : CodeAnalyzer) (ia ib : Issue.t),
         In ia (issues a) -> In ib (issues a) ->
         Issue.file ia = "a.py" -> Issue.line_num ia = 100%Z ->
         Issue.file ib = "b.py" -> Issue.line_num ib = 1%Z ->
         forall l1 l2, sorted (issues a) = l1 ++ ib :: l2 ->
                       In ia l1 /\ ~ In ia l2).
Proof.
  split; [|split].
  - intros a; repeat split; [apply sorted_sorted | apply sorted_perm].
  - intros i; simpl; now rewrite issue_ltb_irrefl.
  - intros a ia ib Ha Hb Fa La Fb Lb l1 l2 E.
    assert (Hlt : lex_lt ia ib) by (left; rewrite Fa, Fb; reflexivity).
    assert (Hno : ~ In ia l2)
      by (eapply sorted_no_smaller_after; eauto using sorted_sorted).
    split; [| exact Hno].
    apply (Permutation_in _ (sorted_perm (issues a))) in Ha.
    rewrite E in Ha; apply in_app_or in Ha; destruct Ha as [H|[H|H]]; auto.
    + subst ia; now apply lex_lt_irrefl in Hlt.
    + contradiction.
Qed.

Lemma report_order_witness :
  let ia := Issue.mk "a.py" 100 "S001" "Too long" in
  let ib := Issue.mk "b.py" 1 "S001" "Too long" in
  let a := add_issues init [ib; ia] in
  sorted (issues a) = [] ++ ia :: [] ++ ib :: []
  /\ In ia [ia] /\ ~ In ia [].
Proof.
  intros ia ib a; split; [reflexivity|].
  apply (proj2 (proj2 report_order) a ia ib); simpl; auto.
Defined.

(** ** Lines of the report *)

Lemma split_lines_no_newline (s : string) :
  no_newline s = true -> split_lines s = [s].
Proof.
  unfold no_newline; induction s as [|c s IH]; [reflexivity|].
  cbn [any_char split_lines].
  destruct (Ascii.eqb "010" c) eqn:E; cbn [orb negb]; [discriminate|].
  intros H; rewrite Ascii.eqb_sym, E, (IH H); reflexivity.
Qed.

Lemma split_lines_app (s rest : string) :
  no_newline s = true ->
  split_lines (s ++ newline ++ rest) = s :: split_lines rest.
Proof.
  unfold no_newline; induction s as [|c s IH]; [reflexivity|].
  cbn [any_char split_lines append].
  destruct (Ascii.eqb "010" c) eqn:E; cbn [orb negb]; [discriminate|].
  intros H; rewrite Ascii.eqb_sym, E, (IH H); reflexivity.
Qed.

Lemma split_join (ls : list string) :
  ls <> [] -> forallb no_newline ls = true ->
  split_lines (join newline ls) = ls.
Proof.
  induction ls as [|x ls IH]; intros Hne H; [now elim Hne|].
  simpl in H; apply andb_true_iff in H; destruct H as [Hx Hls].
  destruct ls as [|y ls].
  - simpl; now apply split_lines_no_newline.
  - change (join newline (x :: y :: ls))
      with (x ++ newline ++ join newline (y :: ls))%string.
    rewrite split_lines_app by exact Hx.
    rewrite IH; [reflexivity | discriminate | exact Hls].
Qed.

Lemma no_newline_app (s t : string) :
  no_newline (s ++ t) = no_newline s && no_newline t.
Proof. unfold no_newline; now rewrite any_char_app, negb_orb. Qed.

Lemma no_newline_uint (d : Decimal.uint) :
  no_newline (NilEmpty.string_of_uint d) = true.
Proof. induction d; simpl; auto. Qed.

Lemma no_newline_int (n : Z) : no_newline (str_of_int n) = true.
Proof.
  unfold str_of_int, NilZero.string_of_int, NilZero.string_of_uint.
  destruct (Z.to_int n) as [d|d]; [destruct d | destruct d];
    try reflexivity; apply no_newline_uint.
Qed.

Lemma render_one_line (i : Issue.t) :
  one_line i = true -> no_newline (Issue.render i) = true.
Proof.
  unfold one_line, Issue.render; intros H.
  apply andb_true_iff in H; destruct H as [H Hm].
  apply andb_true_iff in H; destruct H as [Hf Hc].
  rewrite !no_newline_app, Hf, Hc, Hm, no_newline_int; reflexivity.
Qed.

(** C8: the report is the rendered issues joined by line feeds, one
    rendered issue for each issue of the list, each of the form
    [<file>: Line <line_num>: <code> <message>]; when no text of an issue
    holds a line feed, the lines of the report are these rendered issues;
    with no issue the report is the empty string, as it is after a run on
    a file without declarations and without line violations. *)
Theorem report_format :
  (forall i : Issue.t,
      Issue.render i
      = (Issue.file i ++ ": Line " ++ str_of_int (Issue.line_num i) ++ ": "
         ++ Issue.code i ++ " " ++ Issue.message i)%string)
  /\ Issue.render (Issue.mk "a.py" 12 "S001" "Too long")
     = "a.py: Line 12: S001 Too long"
  /\ (forall a : CodeAnalyzer,
         to_str a = join newline (map Issue.render (sorted (issues a)))
         /\ length (map Issue.render (sorted (issues a))) = length (issues a))
  /\ (forall a : CodeAnalyzer,
         issues a <> [] -> forallb one_line (issues a) = true ->
         split_lines (to_str a) = map Issue.render (sorted (issues a)))
  /\ (forall a : CodeAnalyzer, issues a = [] -> to_str a = "")
  /\ exists a, new [clean_file] = Some a /\ issues a = [] /\ to_str a = "".
Proof.
  split; [reflexivity|].
  split; [reflexivity|].
  split; [|split; [|split]].
  - intros a; split; [reflexivity|].
    rewrite length_map; symmetry; apply Permutation_length, sorted_perm.
  - intros a Hne Hone; unfold to_str; apply split_join.
    + intros E; apply map_eq_nil in E.
      apply Hne, Permutation_nil; rewrite <- E; symmetry; apply sorted_perm.
    + apply forallb_forall; intros s Hs.
      apply in_map_iff in Hs; destruct Hs as (i & <- & Hi).
      apply render_one_line.
      rewrite forallb_forall in Hone; apply Hone.
      eapply Permutation_in; [symmetry; apply sorted_perm | exact Hi].
  - intros a E; unfold to_str; rewrite E; reflexivity.
  - eexists; split; [vm_compute; reflexivity|]; split; reflexivity.
Qed.

Lemma report_format_witness :
  let a := add_issues init [Issue.mk "b.py" 1 "S001" "Too long";
                            Issue.mk "a.py" 100 "S003" "Unnecessary semicolon"] in
  split_lines (to_str a)
  = ["a.py: Line 100: S003 Unnecessary semicolon"; "b.py: Line 1: S001 Too long"].
Proof.
  intros a.
  rewrite (proj1 (proj2 (proj2 (proj2 report_format))) a);
    [reflexivity | discriminate | reflexivity].
Defined.

(** C6: on a file of ASCII lines, when the line number is within the
    lines, the blank-lines check reports S006 at the current line
    exactly when at least three lines come before that line, the line
    is not blank and each of the three lines just before it is blank; a
    file of four blank lines and then [print(1)] gets this one issue, at
    line 5, and no other. *)
Theorem blank_lines_check :
  (forall a : CodeAnalyzer,
      forallb is_ascii (lines a) = true ->
      (line_num a <= Z.of_nat (length (lines a)))%Z ->
      check_blank_lines a
      = Some (if excessive_blank_lines (lines a) (line_num a)
              then issue_append a (line_num a) "S006"
                     "More than two blank lines used before this line"
              else a))
  /\ (forall ls n, (n <= 3)%Z -> excessive_blank_lines ls n = false)
  /\ exists a,
       new [four_blank_lines_file] = Some a
       /\ lines a = [""; ""; ""; ""; "print(1)"]
       /\ issues a
          = [Issue.mk "f.py" 5 "S006"
               "More than two blank lines used before this line"].
Proof.
  split; [intros a _; apply check_blank_lines_eq|].
  split.
  - intros ls n Hn; unfold excessive_blank_lines.
    destruct (Z.leb_spec 4 n); [lia | reflexivity].
  - eexists; split; [vm_compute; reflexivity|]; split; reflexivity.
Qed.

Lemma blank_lines_check_witness :
  let a := set_line (set_source (set_file init "f.py")
                                [""; ""; ""; ""; "print(1)"] (Other []))
                    5 "print(1)" in
  check_blank_lines a
  = Some (issue_append a 5 "S006"
            "More than two blank lines used before this line").
Proof.
  intros a.
  rewrite (proj1 blank_lines_check a); [reflexivity | reflexivity |].
  vm_compute; discriminate.
Defined.

Lemma reports_nothing_or_one (a : CodeAnalyzer) (b : bool) c m :
  exists l, Some (if b then issue_append a (line_num a) c m else a)
            = Some (add_issues a l)
            /\ Forall (fun i => Issue.file i = file a
                                /\ Issue.line_num i = line_num a) l.
Proof.
  destruct b.
  - eexists; split; [reflexivity|]; repeat constructor.
  - exists []; rewrite add_issues_nil; split; [reflexivity | constructor].
Qed.

Lemma indent_always_matches (s : string) :
  exists e, re_match_end Pattern.indent s = Some e.
Proof.
  unfold re_match_end, re_match_rest.
  pose proof (rmatch_complete Pattern.indent true "" s (fun _ rest => Some rest))
    as H.
  simpl append in H.
  destruct (rmatch Pattern.indent true s _) as [rest|]; [eauto|].
  elim H; [constructor | discriminate | reflexivity].
Qed.

Lemma line_checks_report_at_line (m : method) :
  In m line_checks -> reports_at_line m.
Proof.
  unfold line_checks; simpl.
  intros [<-|[<-|[<-|[<-|[<-|[<-|[<-|[]]]]]]]] a Ha.
  - unfold check_length.
    destruct (79 <? String.length (line a))%nat;
      [apply (reports_nothing_or_one a true) | apply (reports_nothing_or_one a false "" "")].
  - unfold check_indent.
    destruct (indent_always_matches (line a)) as [e ->].
    destruct (negb (e mod 4 =? 0)%nat);
      [apply (reports_nothing_or_one a true) | apply (reports_nothing_or_one a false "" "")].
  - unfold check_semicolon.
    destruct (re_match Pattern.semicolon (line a));
      [apply (reports_nothing_or_one a true) | apply (reports_nothing_or_one a false "" "")].
  - unfold check_inline.
    destruct (re_match Pattern.inline (line a));
      [apply (reports_nothing_or_one a true) | apply (reports_nothing_or_one a false "" "")].
  - unfold check_todo.
    destruct (re_match Pattern.todo (line a));
      [apply (reports_nothing_or_one a true) | apply (reports_nothing_or_one a false "" "")].
  - rewrite check_blank_lines_eq by lia.
    apply reports_nothing_or_one.
  - unfold check_space_class_def.
    destruct (re_match (Pattern.space_after "class") (line a));
      [apply (reports_nothing_or_one a true)|].
    destruct (re_match (Pattern.space_after "def") (line a));
      [apply (reports_nothing_or_one a true) | apply (reports_nothing_or_one a false "" "")].
Qed.

Lemma run_checks_report_at_line (checks : list method) :
  (forall m, In m checks -> reports_at_line m) ->
  reports_at_line (run_checks checks).
Proof.
  unfold run_checks; induction checks as [|c cs IH]; intros Hall a Ha.
  - exists []; rewrite add_issues_nil; split; [reflexivity | constructor].
  - destruct (Hall c (or_introl eq_refl) a Ha) as (l1 & E1 & F1).
    destruct (IH (fun m Hm => Hall m (or_intror Hm)) (add_issues a l1) Ha)
      as (l2 & E2 & F2).
    exists (l1 ++ l2); simpl; rewrite E1, E2, add_issues_app.
    split; [reflexivity|]; apply Forall_app; auto.
Qed.

Lemma analyze_lines_from_reports (ls : list string) :
  forall (num : Z) (a : CodeAnalyzer),
    (1 <= num)%Z ->
    (num - 1 + Z.of_nat (length ls) <= Z.of_nat (length (lines a)))%Z ->
    exists a' l,
      analyze_lines_from num ls a = Some a'
      /\ file a' = file a /\ tree a' = tree a /\ lines a' = lines a
      /\ issues a' = issues a ++ l
      /\ Forall (fun i => Issue.file i = file a
                          /\ (1 <= Issue.line_num i
                              <= Z.of_nat (length (lines a)))%Z) l.
Proof.
  induction ls as [|x ls IH]; intros num a Hlo Hhi.
  - exists a, []; rewrite app_nil_r; repeat split; constructor.
  - cbn [length] in Hhi.
    destruct (run_checks_report_at_line line_checks line_checks_report_at_line
                (set_line a num x)) as (l1 & E1 & F1); [simpl; lia|].
    destruct (IH (num + 1)%Z (add_issues (set_line a num x) l1))
      as (a' & l2 & E2 & Hf & Ht & Hl & Hi & F2); [lia | simpl; lia |].
    exists a', (l1 ++ l2); cbn [analyze_lines_from]; rewrite E1; simpl bind.
    rewrite E2; repeat split; auto.
    + rewrite Hi; simpl; now rewrite app_assoc.
    + apply Forall_app; split; [| exact F2].
      eapply Forall_impl; [| exact F1]; simpl.
      intros i [-> ->]; split; [reflexivity | lia].
Qed.

Lemma subnodes_trans (t n m : node) :
  In n (subnodes t) -> In m (subnodes n) -> In m (subnodes t).
Proof.
  induction t as [name ln ch IH|name ln node_args kd ds ch IHk IHd IHc|id ctx ln
                 |ch IH|ch IH|ch IH|ch IH] using node_ind;
    rewrite (subnodes_children (ClassDef name ln ch))
    || rewrite (subnodes_children (FunctionDef name ln node_args kd ds ch))
    || rewrite (subnodes_children (Name id ctx ln))
    || rewrite (subnodes_children (List_ ch))
    || rewrite (subnodes_children (Set_ ch))
    || rewrite (subnodes_children (Dict ch))
    || rewrite (subnodes_children (Other ch));
    cbn [iter_child_nodes];
    (intros [<-|Hn] Hm; [rewrite subnodes_children in Hm; exact Hm|]);
    right; rewrite in_flat_map in *; destruct Hn as (c & Hc & Hn);
    exists c; (split; [exact Hc|]).
  - rewrite Forall_forall in IH; now apply IH.
  - rewrite Forall_forall in IHk, IHd, IHc.
    apply in_app_or in Hc; destruct Hc as [Hc|Hc]; [apply IHk; auto|].
    apply in_app_or in Hc; destruct Hc; [apply IHd | apply IHc]; auto.
  - destruct Hc.
  - rewrite Forall_forall in IH; now apply IH.
  - rewrite Forall_forall in IH; now apply IH.
  - rewrite Forall_forall in IH; now apply IH.
  - rewrite Forall_forall in IH; now apply IH.
Qed.

Lemma subnodes_self (n : node) : In n (subnodes n).
Proof. rewrite subnodes_children; now left. Qed.

Lemma node_issues_at_nodes (f : string) (n : node) :
  Forall (fun i => Issue.file i = f
                   /\ exists m, In m (subnodes n)
                                /\ node_lineno m = Some (Issue.line_num i))
         (node_issues f n).
Proof.
  pose proof (subnodes_self n) as Hself.
  destruct n as [name ln ch|name ln node_args kd ds ch|id ctx ln|ch|ch|ch|ch];
    try constructor.
  - unfold node_issues, class_name_issues.
    destruct (is_not_camel name); repeat constructor; simpl; eauto.
  - cbn [node_issues].
    apply Forall_app; split; [| apply Forall_app; split;
                                [| apply Forall_app; split]].
    + unfold function_name_issues.
      destruct (is_not_snake name); repeat constructor; simpl; eauto.
    + unfold argument_issues; apply Forall_forall; intros i Hi.
      apply in_map_iff in Hi; destruct Hi as (x & <- & _); simpl; eauto.
    + apply Forall_forall; intros i Hi.
      apply in_flat_map in Hi; destruct Hi as (m & Hm & Hi).
      apply (Permutation_in _ (walk_subnodes _)) in Hm.
      destruct m; simpl in Hi; try contradiction.
      destruct (is_store ctx && is_not_snake id); [| contradiction].
      destruct Hi as [<-|[]]; split; [reflexivity|].
      exists (Name id ctx lineno); split; [exact Hm | reflexivity].
    + unfold default_issues.
      destruct (existsb is_mutable_display ds); repeat constructor; simpl; eauto.
Qed.

Lemma visit_reports_at_nodes (a : CodeAnalyzer) (n : node) :
  reports_at_nodes a n.
Proof.
  exists (node_issues (file a) n); split;
    [apply visit_eq | apply node_issues_at_nodes].
Qed.

Lemma analyze_file_reports (u : source_file) (a : CodeAnalyzer) :
  well_parsed u = true ->
  exists a' l,
    load_file u (set_file a (path u)) >>= analyze_lines
      >>= (fun a' => Some (analyze_tree a')) = Some a'
    /\ issues a' = issues a ++ l
    /\ Forall (issue_of u) l.
Proof.
  unfold well_parsed, load_file.
  destruct (parsed u) as [t|] eqn:Ep; [| discriminate].
  intros Hw; cbn [bind]; unfold analyze_lines.
  set (a1 := set_source (set_file a (path u)) (split_lines (rstrip (source u))) t).
  destruct (analyze_lines_from_reports (lines a1) 1 a1)
    as (a2 & l1 & E & Hf & Ht & Hl & Hi & F1); [lia | lia |].
  rewrite E; cbn [bind]; rewrite analyze_tree_eq.
  eexists; eexists; split; [reflexivity|].
  split; [cbn [add_issues issues]; rewrite Hi, <- app_assoc; reflexivity|].
  apply Forall_app; split.
  - eapply Forall_impl; [| exact F1]; intros i [Fi Li]; split; assumption.
  - rewrite Hf, Ht; apply Forall_forall; intros i Hin.
    apply in_flat_map in Hin; destruct Hin as (n & Hn & Hin).
    apply (Permutation_in _ (walk_subnodes _)) in Hn.
    pose proof (node_issues_at_nodes (file a1) n) as Hall.
    rewrite Forall_forall in Hall.
    destruct (Hall i Hin) as (Fi & m & Hm & Lm).
    split; [exact Fi|].
    unfold linenos_within in Hw; rewrite forallb_forall in Hw.
    specialize (Hw m (subnodes_trans _ _ _ Hn Hm)).
    rewrite Lm in Hw; unfold in_lines in Hw.
    apply andb_true_iff in Hw; destruct Hw as [H1 H2].
    apply Z.leb_le in H1, H2; lia.
Qed.

(** C9: each line check, run at a line of the file, returns and adds
    only issues at the current file and line; each round of the tree
    checks adds only issues at the current file and at the line of a
    node of the tree; so, the lines of the nodes being lines of the
    text, a run returns, and what it adds for a file names that file and
    one of its lines. *)
Theorem issues_of_current_file :
  (forall m : method, In m line_checks -> reports_at_line m)
  /\ (forall (a : CodeAnalyzer) (n : node), reports_at_nodes a n)
  /\ (forall (files : list source_file) (a : CodeAnalyzer),
         forallb well_parsed files = true ->
         exists a' ls,
           analyze files a = Some a'
           /\ issues a' = issues a ++ concat ls
           /\ Forall2 (fun u l => Forall (issue_of u) l) files ls).
Proof.
  split; [exact line_checks_report_at_line|].
  split; [exact visit_reports_at_nodes|].
  intros files; induction files as [|u files IH]; intros a Hw.
  - exists a, []; simpl; rewrite app_nil_r; repeat split; constructor.
  - simpl in Hw; apply andb_true_iff in Hw; destruct Hw as [Hu Hw].
    destruct (analyze_file_reports u a Hu) as (a1 & l1 & E1 & I1 & F1).
    destruct (IH a1 Hw) as (a' & ls & E & I & F).
    exists a', (l1 :: ls); cbn [analyze]; rewrite E1; cbn [bind].
    split; [exact E|]; split.
    + rewrite I, I1; simpl; now rewrite app_assoc.
    + now constructor.
Qed.

Lemma issues_of_current_file_witness :
  exists a' ls,
    analyze [four_blank_lines_file; nested_functions_file] init = Some a'
    /\ issues a' = issues init ++ concat ls
    /\ Forall2 (fun u l => Forall (issue_of u) l)
               [four_blank_lines_file; nested_functions_file] ls.
Proof.
  apply (proj2 (proj2 issues_of_current_file)); reflexivity.
Defined.

(** * Further properties of the analyzer *)

(** ** The indentation check *)

Lemma star_chr_greedy {A} (p : ascii -> bool) (ret : string -> A) :
  forall (n : nat) (b : bool) (s : string),
    String.length s <= n ->
    star_loop (rmatch (Chr p)) (fun _ rest => Some (ret rest)) n b s
    = Some (ret (drop_leading p s)).
Proof.
  induction n as [|n IH]; intros b s Hn.
  - destruct s; [reflexivity | simpl in Hn; lia].
  - destruct s as [|c s]; [reflexivity|].
    cbn [star_loop rmatch drop_leading].
    destruct (p c); [| reflexivity].
    simpl in Hn.
    assert (Hlt : Nat.ltb (String.length s) (String.length (String c s)) = true)
      by (apply Nat.ltb_lt; simpl; lia).
    rewrite Hlt, IH by lia; reflexivity.
Qed.

Lemma drop_leading_length (p : ascii -> bool) (s : string) :
  String.length s - String.length (drop_leading p s) = count_leading p s.
Proof.
  induction s as [|c s IH]; [reflexivity|].
  cbn [drop_leading count_leading]; destruct (p c).
  - rewrite <- IH.
    assert (String.length (drop_leading p s) <= String.length s).
    { clear; induction s as [|d s IH]; simpl; [lia|].
      destruct (p d); simpl; lia. }
    cbn [String.length]; lia.
  - cbn [String.length]; lia.
Qed.

Lemma indent_match_end (l : string) :
  re_match_end Pattern.indent l = Some (count_leading is_space l).
Proof.
  unfold re_match_end, re_match_rest, Pattern.indent, Re.s; cbn [rmatch].
  rewrite (star_chr_greedy is_space (fun x => x)) by lia.
  now rewrite drop_leading_length.
Qed.

(** X1: on an ASCII line the indentation check does not raise, and it
    reports S002 at the current line exactly when the number of
    white-space characters at the head of the line is not a multiple of
    four: the match of the pattern "\s*" ends after the longest run of
    white space, nowhere before. *)
Theorem check_indent_leading_space (a : CodeAnalyzer) :
  is_ascii (line a) = true ->
  check_indent a
  = Some (if (count_leading is_space (line a) mod 4 =? 0)%nat
          then a
          else issue_append a (line_num a) "S002"
                 "Indentation is not a multiple of 4").
Proof.
  intros _; unfold check_indent; rewrite indent_match_end.
  destruct (count_leading is_space (line a) mod 4 =? 0)%nat; reflexivity.
Qed.

Lemma check_indent_leading_space_witness :
  let a := set_line init 2 "  x = 1" in
  check_indent a
  = Some (issue_append a 2 "S002" "Indentation is not a multiple of 4").
Proof.
  intros a; rewrite (check_indent_leading_space a); reflexivity.
Defined.

(** ** Class and function names *)

Lemma node_issues_S008 f (n : node) :
  filter (has_code "S008") (node_issues f n)
  = match n with
    | ClassDef name lineno _ => class_name_issues f name lineno
    | _ => []
    end.
Proof.
  destruct n; simpl; try reflexivity; filter_codes; reflexivity.
Qed.

Lemma node_issues_S009 f (n : node) :
  filter (has_code "S009") (node_issues f n)
  = match n with
    | FunctionDef name lineno _ _ _ _ => function_name_issues f name lineno
    | _ => []
    end.
Proof.
  destruct n; simpl; try reflexivity; filter_codes; reflexivity.
Qed.

(** X2: the S008 issues that [analyze_tree] adds are one for each class
    definition the walk yields whose name fails the CamelCase test, at
    the line of the class and with the name in the message, and no
    other; classes inside classes or functions are among them, since
    the walk yields every node of the tree. *)
Theorem class_name_issue_per_class (a : CodeAnalyzer) :
  exists l,
    analyze_tree a = add_issues a l
    /\ filter (has_code "S008") l
       = flat_map
           (fun n =>
              match n with
              | ClassDef name lineno _ =>
                  if is_not_camel name
                  then [Issue.mk (file a) lineno "S008"
                          ("Class name '" ++ name ++ "' should use CamelCase")]
                  else []
              | _ => []
              end) (walk (tree a))
    /\ Permutation (walk (tree a)) (subnodes (tree a)).
Proof.
  eexists; split; [apply analyze_tree_eq|]; split.
  - rewrite filter_flat_map; apply flat_map_ext; intros n.
    rewrite node_issues_S008; destruct n; reflexivity.
  - apply walk_subnodes.
Qed.

(** X3: the S009 issues that [analyze_tree] adds are one for each
    function definition the walk yields whose name fails the snake_case
    test, at the line of the definition and with the name in the
    message, and no other. *)
Theorem function_name_issue_per_function (a : CodeAnalyzer) :
  exists l,
    analyze_tree a = add_issues a l
    /\ filter (has_code "S009") l
       = flat_map
           (fun n =>
              match n with
              | FunctionDef name lineno _ _ _ _ =>
                  if is_not_snake name
                  then [Issue.mk (file a) lineno "S009"
                          ("Function name '" ++ name ++ "' should use snake_case")]
                  else []
              | _ => []
              end) (walk (tree a)).
Proof.
  eexists; split; [apply analyze_tree_eq|].
  rewrite filter_flat_map; apply flat_map_ext; intros n.
  rewrite node_issues_S009; destruct n; reflexivity.
Qed.

(** ** Trees without function definitions *)

Lemma flat_map_nil {X Y} (g : X -> list Y) (xs : list X) :
  (forall x, In x xs -> g x = []) -> flat_map g xs = [].
Proof.
  induction xs as [|x xs IH]; intros H; simpl; [reflexivity|].
  rewrite (H x (or_introl eq_refl)), IH; [reflexivity|].
  intros y Hy; apply H; now right.
Qed.

(** X4: names are checked inside function definitions only.  When no
    node of the tree is a function definition, the tree checks add
    nothing but S008 issues, whatever is assigned at the level of the
    module or of a class; when no node is a class definition either,
    they leave the state as it is. *)
Theorem no_function_no_variable_issue (a : CodeAnalyzer) :
  forallb (fun n => negb (is_function n)) (subnodes (tree a)) = true ->
  (exists l, analyze_tree a = add_issues a l
             /\ Forall (fun i => Issue.code i = "S008") l)
  /\ (forallb (fun n => negb (is_class n)) (subnodes (tree a)) = true ->
      analyze_tree a = a).
Proof.
  intros Hf; rewrite forallb_forall in Hf.
  assert (Hw : forall n, In n (walk (tree a)) -> is_function n = false).
  { intros n Hn; apply negb_true_iff, Hf.
    eapply Permutation_in; [apply walk_subnodes | exact Hn]. }
  split.
  - eexists; split; [apply analyze_tree_eq|].
    apply Forall_forall; intros i Hi.
    apply in_flat_map in Hi; destruct Hi as (n & Hn & Hi).
    specialize (Hw n Hn).
    destruct n; try discriminate; simpl in Hi; try contradiction.
    pose proof (class_name_code (file a) name lineno) as Hc.
    rewrite Forall_forall in Hc; now apply Hc.
  - intros Hc; rewrite forallb_forall in Hc.
    rewrite analyze_tree_eq, flat_map_nil; [apply add_issues_nil|].
    intros n Hn; specialize (Hw n Hn).
    assert (Hk : is_class n = false).
    { apply negb_true_iff, Hc.
      eapply Permutation_in; [apply walk_subnodes | exact Hn]. }
    destruct n; try discriminate; reflexivity.
Qed.

Lemma no_function_no_variable_issue_witness :
  let t := Other [ClassDef "shape" 1 [Other [Name "Bad" Store 2; Other []]]] in
  let a := set_source (set_file init "m.py") ["class shape:"; "    Bad = 1"] t in
  exists l, analyze_tree a = add_issues a l
            /\ Forall (fun i => Issue.code i = "S008") l.
Proof.
  intros t a.
  apply (proj1 (no_function_no_variable_issue a eq_refl)).
Defined.

(** ** The report and the order of the issues in the list *)

Lemma lex_le_antisym (x y : Issue.t) : lex_le x y -> lex_le y x -> x = y.
Proof.
  intros [->|H1] [E|H2]; auto.
  exfalso; eapply lex_lt_irrefl, lex_lt_trans; eauto.
Qed.

Lemma sorted_list_unique (l1 : list Issue.t) :
  forall l2,
    StronglySorted lex_le l1 -> StronglySorted lex_le l2 ->
    Permutation l1 l2 -> l1 = l2.
Proof.
  induction l1 as [|x l1 IH]; intros l2 S1 S2 P.
  - apply Permutation_nil in P; now subst.
  - destruct l2 as [|y l2];
      [apply Permutation_sym, Permutation_nil in P; discriminate|].
    inversion S1 as [|? ? S1' A1]; inversion S2 as [|? ? S2' A2]; subst.
    rewrite Forall_forall in A1, A2.
    assert (Hx : In x (y :: l2))
      by (eapply Permutation_in; [exact P | now left]).
    assert (Hy : In y (x :: l1))
      by (eapply Permutation_in; [symmetry; exact P | now left]).
    assert (E : x = y).
    { destruct Hx as [->|Hx]; [reflexivity|].
      destruct Hy as [->|Hy]; [reflexivity|].
      apply lex_le_antisym; [now apply A1 | now apply A2]. }
    subst y; f_equal; apply IH; auto.
    eapply Permutation_cons_inv; exact P.
Qed.

Lemma sorted_permutation (l1 l2 : list Issue.t) :
  Permutation l1 l2 -> sorted l1 = sorted l2.
Proof.
  intros P; apply sorted_list_unique; try apply sorted_sorted.
  rewrite <- (sorted_perm l1), <- (sorted_perm l2); exact P.
Qed.

(** X5: the report depends on which issues are in the list and how many
    times, not on the order in which the checks appended them: two
    states whose lists are rearrangements of each other print the same
    report; and sorting a sorted list changes nothing. *)
Theorem report_ignores_accumulation_order (a b : CodeAnalyzer) :
  Permutation (issues a) (issues b) ->
  to_str a = to_str b
  /\ sorted (sorted (issues a)) = sorted (issues a).
Proof.
  intros P; split.
  - unfold to_str; now rewrite (sorted_permutation _ _ P).
  - apply sorted_permutation; symmetry; apply sorted_perm.
Qed.

Lemma report_ignores_accumulation_order_witness :
  let i := Issue.mk "a.py" 2 "S001" "Too long" in
  let j := Issue.mk "a.py" 1 "S003" "Unnecessary semicolon" in
  to_str (add_issues init [i; j]) = to_str (add_issues init [j; i])
  /\ sorted (sorted [i; j]) = sorted [i; j].
Proof.
  intros i j.
  apply (report_ignores_accumulation_order
           (add_issues init [i; j]) (add_issues init [j; i])).
  apply perm_swap.
Defined.

(** ** The checks do not look at the issues found so far *)

Lemma rebase_issue_append pre (a : CodeAnalyzer) n c m :
  issue_append (rebase pre a) n c m = rebase pre (issue_append a n c m).
Proof. unfold issue_append, rebase; simpl; now rewrite app_assoc. Qed.

Lemma rebase_add_issues pre (a : CodeAnalyzer) l :
  add_issues (rebase pre a) l = rebase pre (add_issues a l).
Proof. unfold add_issues, rebase; simpl; now rewrite app_assoc. Qed.

Lemma framed_if (cond : CodeAnalyzer -> bool) (c m : string) :
  (forall pre a, cond (rebase pre a) = cond a) ->
  framed (fun a => if cond a
                   then Some (issue_append a (line_num a) c m)
                   else Some a).
Proof.
  intros Hc pre a; rewrite Hc; destruct (cond a); [| reflexivity].
  change (line_num (rebase pre a)) with (line_num a).
  now rewrite rebase_issue_append.
Qed.

Lemma line_checks_framed (m : method) : In m line_checks -> framed m.
Proof.
  unfold line_checks; simpl.
  intros [<-|[<-|[<-|[<-|[<-|[<-|[<-|[]]]]]]]].
  - apply (framed_if (fun a => (79 <? String.length (line a))%nat));
      reflexivity.
  - intros pre a; unfold check_indent.
    change (line (rebase pre a)) with (line a).
    change (line_num (rebase pre a)) with (line_num a).
    rewrite indent_match_end.
    destruct (negb _); [| reflexivity].
    now rewrite rebase_issue_append.
  - apply (framed_if (fun a => re_match Pattern.semicolon (line a)));
      reflexivity.
  - apply (framed_if (fun a => re_match Pattern.inline (line a)));
      reflexivity.
  - apply (framed_if (fun a => re_match Pattern.todo (line a)));
      reflexivity.
  - intros pre a; unfold check_blank_lines.
    change (lines (rebase pre a)) with (lines a).
    change (line_num (rebase pre a)) with (line_num a).
    destruct (3 <=? line_num a - 1)%Z; [| reflexivity].
    destruct (nth_error _ _); [| reflexivity].
    destruct (_ && _); [| reflexivity].
    now rewrite rebase_issue_append.
  - intros pre a; unfold check_space_class_def.
    change (line (rebase pre a)) with (line a).
    change (line_num (rebase pre a)) with (line_num a).
    destruct (re_match (Pattern.space_after "class") (line a));
      [now rewrite rebase_issue_append|].
    destruct (re_match (Pattern.space_after "def") (line a));
      [now rewrite rebase_issue_append | reflexivity].
Qed.

Lemma fold_bind_none (checks : list method) : fold_left bind checks None = None.
Proof. induction checks; simpl; auto. Qed.

Lemma run_checks_framed (checks : list method) :
  (forall m, In m checks -> framed m) -> framed (run_checks checks).
Proof.
  unfold run_checks; intros Hall pre a.
  change (Some (rebase pre a)) with (option_map (rebase pre) (Some a)).
  generalize (Some a) as o.
  induction checks as [|c cs IH]; intros o; [reflexivity|].
  cbn [fold_left].
  replace (bind (option_map (rebase pre) o) c)
    with (option_map (rebase pre) (bind o c)).
  - apply IH; intros m Hm; apply Hall; now right.
  - destruct o as [x|]; [| reflexivity].
    simpl; symmetry; apply Hall; now left.
Qed.

Lemma analyze_lines_from_framed (ls : list string) :
  forall num, framed (analyze_lines_from num ls).
Proof.
  induction ls as [|x ls IH]; intros num pre a; [reflexivity|].
  cbn [analyze_lines_from].
  change (set_line (rebase pre a) num x) with (rebase pre (set_line a num x)).
  rewrite (run_checks_framed line_checks line_checks_framed).
  destruct (run_checks line_checks (set_line a num x)) as [a'|];
    [| reflexivity].
  simpl; apply IH.
Qed.

Lemma analyze_tree_rebase pre (a : CodeAnalyzer) :
  analyze_tree (rebase pre a) = rebase pre (analyze_tree a).
Proof. rewrite !analyze_tree_eq; apply rebase_add_issues. Qed.

(** One round of the loop of [analyze]. *)
Lemma analyze_cons (u : source_file) (rest : list source_file) (a : CodeAnalyzer) :
  analyze (u :: rest) a = analyze [u] a >>= analyze rest.
Proof.
  cbn [analyze].
  destruct (load_file u (set_file a (path u)) >>= analyze_lines
              >>= (fun a' => Some (analyze_tree a'))); reflexivity.
Qed.

Lemma analyze_one_framed (u : source_file) : framed (analyze [u]).
Proof.
  intros pre a; cbn [analyze]; unfold load_file.
  destruct (parsed u) as [t|]; [| reflexivity].
  cbn [bind]; unfold analyze_lines.
  change (lines (set_source (set_file (rebase pre a) (path u))
                            (split_lines (rstrip (source u))) t))
    with (lines (set_source (set_file a (path u))
                            (split_lines (rstrip (source u))) t)).
  change (set_source (set_file (rebase pre a) (path u))
                     (split_lines (rstrip (source u))) t)
    with (rebase pre (set_source (set_file a (path u))
                                 (split_lines (rstrip (source u))) t)).
  rewrite analyze_lines_from_framed.
  destruct (analyze_lines_from _ _ _) as [a'|]; [| reflexivity].
  simpl; now rewrite analyze_tree_rebase.
Qed.

Lemma split_lines_nonempty (s : string) : split_lines s <> [].
Proof.
  destruct s as [|c s]; simpl; [discriminate|].
  destruct (Ascii.eqb c "010"); [discriminate|].
  destruct (split_lines s); discriminate.
Qed.

(** A round of the loop overwrites everything but the issues before it
    reads the state. *)
Lemma analyze_one_issues_only (u : source_file) (a b : CodeAnalyzer) :
  issues a = issues b -> analyze [u] a = analyze [u] b.
Proof.
  intros E; cbn [analyze]; unfold load_file.
  destruct (parsed u) as [t|]; [| reflexivity].
  cbn [bind]; unfold analyze_lines.
  cbn [lines set_source].
  destruct (split_lines (rstrip (source u))) as [|x ls] eqn:El;
    [now apply split_lines_nonempty in El|].
  cbn [analyze_lines_from].
  change (set_line (set_source (set_file a (path u)) (x :: ls) t) 1 x)
    with (mkAnalyzer (path u) t (x :: ls) 1 x (issues a)).
  change (set_line (set_source (set_file b (path u)) (x :: ls) t) 1 x)
    with (mkAnalyzer (path u) t (x :: ls) 1 x (issues b)).
  now rewrite E.
Qed.

Lemma analyze_one_returns (u : source_file) (a : CodeAnalyzer) :
  parses u = true -> exists a', analyze [u] a = Some a'.
Proof.
  unfold parses; cbn [analyze]; unfold load_file.
  destruct (parsed u) as [t|]; [intros _ | discriminate].
  cbn [bind]; unfold analyze_lines.
  set (a1 := set_source (set_file a (path u)) (split_lines (rstrip (source u))) t).
  destruct (analyze_lines_from_reports (lines a1) 1 a1)
    as (a2 & l1 & E & _); [lia | lia |].
  rewrite E; cbn [bind]; eauto.
Qed.

Lemma analyze_one_fails (u : source_file) (a : CodeAnalyzer) :
  parses u = false -> analyze [u] a = None.
Proof.
  unfold parses; cbn [analyze]; unfold load_file.
  destruct (parsed u); [discriminate | reflexivity].
Qed.

Lemma analyze_one_issues (u : source_file) (a : CodeAnalyzer) :
  parses u = true ->
  exists a', analyze [u] a = Some a' /\ issues a' = issues a ++ file_issues u.
Proof.
  intros Hp.
  rewrite (analyze_one_issues_only u a (rebase (issues a) init))
    by (simpl; now rewrite app_nil_r).
  rewrite analyze_one_framed; unfold file_issues.
  destruct (analyze_one_returns u init Hp) as (a0 & ->).
  simpl; eauto.
Qed.

Lemma analyze_issues (files : list source_file) :
  forall a, forallb parses files = true ->
    exists a', analyze files a = Some a'
               /\ issues a' = issues a ++ flat_map file_issues files.
Proof.
  induction files as [|u files IH]; intros a Hp.
  - exists a; simpl; now rewrite app_nil_r.
  - simpl in Hp; apply andb_true_iff in Hp; destruct Hp as [Hu Hp].
    destruct (analyze_one_issues u a Hu) as (a1 & E1 & I1).
    destruct (IH a1 Hp) as (a' & E & I).
    exists a'; rewrite analyze_cons, E1; cbn [bind flat_map].
    split; [exact E|]; now rewrite I, I1, app_assoc.
Qed.

Lemma analyze_fails (files : list source_file) :
  forall a, forallb parses files = false -> analyze files a = None.
Proof.
  induction files as [|u files IH]; intros a Hp; [discriminate|].
  simpl in Hp; rewrite analyze_cons.
  destruct (parses u) eqn:Hu.
  - destruct (analyze_one_returns u a Hu) as (a1 & ->); simpl; now apply IH.
  - now rewrite analyze_one_fails.
Qed.

Lemma analyze_returns_parses (files : list source_file) (a a' : CodeAnalyzer) :
  analyze files a = Some a' -> forallb parses files = true.
Proof.
  intros E; destruct (forallb parses files) eqn:Hp; [reflexivity|].
  rewrite analyze_fails in E; [discriminate | exact Hp].
Qed.

(** X6: a run returns exactly when every file parses; one file that
    does not parse makes the whole run raise, wherever it stands in the
    list, and no check ever raises on a file that parses. *)
Theorem run_returns_iff_files_parse (files : list source_file) (a : CodeAnalyzer) :
  (forallb parses files = true <-> exists a', analyze files a = Some a')
  /\ (forallb parses files = false <-> analyze files a = None).
Proof.
  split; split.
  - intros Hp; destruct (analyze_issues files a Hp) as (a' & E & _); eauto.
  - intros (a' & E); eapply analyze_returns_parses; eauto.
  - apply analyze_fails.
  - intros E; destruct (forallb parses files) eqn:Hp; [| reflexivity].
    destruct (analyze_issues files a Hp) as (a' & E' & _); congruence.
Qed.

Lemma run_returns_iff_files_parse_witness :
  exists a', analyze [clean_file; four_blank_lines_file] init = Some a'.
Proof.
  apply (proj1 (proj1 (run_returns_iff_files_parse
                         [clean_file; four_blank_lines_file] init))).
  reflexivity.
Defined.

(** X7: the issues of a run are the issues before it followed by those
    of each file, in the order of the files: nothing is dropped between
    files, and what a file contributes is what it yields analyzed alone,
    whatever was analyzed before it. *)
Theorem issues_accumulate_per_file (files : list source_file) (a : CodeAnalyzer) :
  forallb parses files = true ->
  exists a', analyze files a = Some a'
             /\ issues a' = issues a ++ flat_map file_issues files.
Proof. apply analyze_issues. Qed.

Lemma issues_accumulate_per_file_witness :
  exists a', analyze [four_blank_lines_file; nested_functions_file] init = Some a'
             /\ issues a'
                = issues init
                  ++ flat_map file_issues
                              [four_blank_lines_file; nested_functions_file].
Proof. apply issues_accumulate_per_file; reflexivity. Defined.

(** X8: the report does not depend on the order in which the files are
    analyzed: if a run over the files returns, a run over the same files
    in any other order returns too and prints the same report. *)
Theorem report_ignores_file_order (files files' : list source_file)
        (a : CodeAnalyzer) :
  Permutation files files' ->
  new files = Some a ->
  exists b, new files' = Some b /\ to_str b = to_str a.
Proof.
  unfold new; intros P E.
  assert (Hp : forallb parses files = true)
    by (eapply analyze_returns_parses; exact E).
  assert (Hp' : forallb parses files' = true).
  { apply forallb_forall; intros u Hu; rewrite forallb_forall in Hp.
    apply Hp; eapply Permutation_in; [symmetry; exact P | exact Hu]. }
  destruct (analyze_issues files init Hp) as (a0 & E0 & I0).
  destruct (analyze_issues files' init Hp') as (b & Eb & Ib).
  assert (a0 = a) by congruence; subst a0.
  exists b; split; [exact Eb|].
  unfold to_str; f_equal; f_equal; apply sorted_permutation.
  rewrite Ib, I0; apply Permutation_app_head.
  apply Permutation_flat_map; symmetry; exact P.
Qed.

Lemma report_ignores_file_order_witness :
  exists a b,
    new [four_blank_lines_file; nested_functions_file] = Some a
    /\ new [nested_functions_file; four_blank_lines_file] = Some b
    /\ to_str b = to_str a.
Proof.
  destruct (new [four_blank_lines_file; nested_functions_file]) as [a|] eqn:E;
    [| vm_compute in E; discriminate].
  destruct (report_ignores_file_order
              [four_blank_lines_file; nested_functions_file]
              [nested_functions_file; four_blank_lines_file] a
              (perm_swap _ _ _) E) as (b & Eb & Hb).
  exists a, b; auto.
Defined.

(** ** Code and comment of a line *)

Lemma code_comment_parts (l : string) :
  l = (code_part l ++ comment_part l)%string.
Proof.
  induction l as [|c l IH]; [reflexivity|].
  cbn [code_part comment_part]; destruct (Ascii.eqb "#" c); [reflexivity|].
  cbn [append]; now rewrite <- IH.
Qed.

Lemma code_part_no_hash (l : string) : all_chars not_hash (code_part l) = true.
Proof.
  induction l as [|c l IH]; [reflexivity|].
  cbn [code_part]; destruct (Ascii.eqb "#" c) eqn:E; [reflexivity|].
  cbn [all_chars]; unfold not_hash at 1; now rewrite E.
Qed.

Lemma comment_part_head (l : string) :
  comment_part l = "" \/ exists r, comment_part l = String "#" r.
Proof.
  induction l as [|c l IH]; [now left|].
  cbn [comment_part]; destruct (Ascii.eqb_spec "#"%char c) as [<-|N]; eauto.
Qed.

Lemma parts_unique (p t : string) :
  all_chars not_hash p = true ->
  (t = "" \/ exists r, t = String "#" r) ->
  code_part (p ++ t) = p /\ comment_part (p ++ t) = t.
Proof.
  intros Hp Ht; induction p as [|c p IH]; cbn [append].
  - destruct Ht as [->|(r & ->)]; split; reflexivity.
  - cbn [all_chars] in Hp; apply andb_true_iff in Hp; destruct Hp as [Hc Hp].
    unfold not_hash in Hc; apply negb_true_iff in Hc.
    cbn [code_part comment_part]; rewrite Hc.
    destruct (IH Hp) as [-> ->]; split; reflexivity.
Qed.

Lemma no_newline_cons (c : ascii) (s : string) :
  no_newline (String c s) = negb (Ascii.eqb "010" c) && no_newline s.
Proof. unfold no_newline; cbn [any_char]; now rewrite negb_orb. Qed.

Lemma at_end_no_newline (s : string) :
  at_end s = true -> no_newline s = true -> s = "".
Proof.
  destruct s as [|c [|d s]]; cbn [at_end]; try discriminate; [reflexivity|].
  intros E; apply Ascii.eqb_eq in E; subst c; discriminate.
Qed.

Lemma dot_no_newline (s : string) :
  all_chars (fun x => negb (Ascii.eqb x "010")) s = no_newline s.
Proof.
  induction s as [|c s IH]; [reflexivity|].
  cbn [all_chars]; now rewrite no_newline_cons, IH, Ascii.eqb_sym.
Qed.

Lemma space_not_hash (s : string) :
  all_chars is_space s = true -> all_chars not_hash s = true.
Proof.
  induction s as [|c s IH]; [reflexivity|].
  cbn [all_chars]; intros H; apply andb_true_iff in H; destruct H as [Hc Hs].
  rewrite (IH Hs), andb_true_r; unfold not_hash.
  destruct (Ascii.eqb_spec "#"%char c) as [<-|N]; [discriminate | reflexivity].
Qed.

Ltac string_eq :=
  repeat (rewrite ?sapp_assoc, ?sapp_nil_r; cbn [append]); reflexivity.

(** ** The semicolon check *)

Lemma semicolon_match_iff (l : string) :
  re_match Pattern.semicolon l = true <->
  exists p ws tail fin,
    l = (p ++ String ";" ws ++ tail ++ fin)%string
    /\ all_chars not_hash p = true
    /\ all_chars is_space ws = true
    /\ (tail = "" \/ exists d, tail = String "#" d /\ no_newline d = true)
    /\ at_end fin = true.
Proof.
  rewrite re_match_iff; split.
  - intros (s1 & s2 & -> & H); rx_unfold.
    destruct H as (x5 & e & -> & (x4 & o & -> & (x3 & ws & -> &
                    (x2 & sc & -> & (x1 & p & -> & (-> & _) & Hp)
                     & (c & -> & Hc)) & Hws) & Ho) & (-> & He)).
    apply star_chr in Hp, Hws; apply Ascii.eqb_eq in Hc; subst c.
    exists p, ws, o, s2; repeat split; auto.
    + string_eq.
    + destruct Ho as [(h & d & -> & (c & -> & Hc) & Hd)| ->]; [| now left].
      apply Ascii.eqb_eq in Hc; subst c; apply star_chr in Hd.
      right; exists d; split; [reflexivity | now rewrite <- dot_no_newline].
  - intros (p & ws & tail & fin & -> & Hp & Hws & Ht & He).
    exists (p ++ String ";" ws ++ tail)%string, fin; split.
    + string_eq.
    + rx_unfold.
      exists (p ++ String ";" ws ++ tail)%string, ""; split;
        [string_eq|]; split; [| auto].
      exists (p ++ String ";" ws)%string, tail; split;
        [string_eq|]; split.
      * exists (p ++ String ";" "")%string, ws; split;
          [string_eq|]; split; [| now apply star_chr].
        exists p, (String ";" ""); split; [reflexivity|]; split;
          [| exists ";"%char; auto].
        exists "", p; repeat split; now apply star_chr.
      * destruct Ht as [->|(d & -> & Hd)]; [now right|].
        left; exists (String "#" ""), d; split; [reflexivity|]; split;
          [exists "#"%char; auto|].
        apply star_chr; now rewrite dot_no_newline.
Qed.

Lemma semicolon_match_line (l : string) :
  no_newline l = true ->
  (re_match Pattern.semicolon l = true <-> ends_in_semicolon l).
Proof.
  intros Hl; rewrite semicolon_match_iff; unfold ends_in_semicolon; split.
  - intros (p & ws & tail & fin & E & Hp & Hws & Ht & He).
    assert (fin = "").
    { apply at_end_no_newline; [exact He|].
      rewrite E in Hl; rewrite !no_newline_app in Hl.
      repeat (apply andb_true_iff in Hl; destruct Hl as [? Hl]); exact Hl. }
    subst fin; rewrite sapp_nil_r in E.
    exists p, ws; split; [| exact Hws].
    assert (Hx : all_chars not_hash (p ++ String ";" ws) = true).
    { rewrite all_chars_app, Hp; cbn [all_chars andb].
      now rewrite (space_not_hash ws Hws). }
    replace l with ((p ++ String ";" ws) ++ tail)%string
      by (rewrite E, sapp_assoc; reflexivity).
    apply parts_unique; [exact Hx|].
    destruct Ht as [->|(d & -> & _)]; eauto.
  - intros (p & ws & E & Hws).
    pose proof (code_part_no_hash l) as Hc; rewrite E, all_chars_app in Hc.
    apply andb_true_iff in Hc; destruct Hc as [Hp _].
    exists p, ws, (comment_part l), ""; repeat split; auto.
    + rewrite sapp_nil_r, (code_comment_parts l) at 1.
      rewrite E, sapp_assoc; reflexivity.
    + destruct (comment_part_head l) as [->|(r & Hr)]; [now left|].
      right; exists r; split; [exact Hr|].
      rewrite (code_comment_parts l), Hr, no_newline_app, no_newline_cons in Hl.
      apply andb_true_iff in Hl; destruct Hl as [_ Hl].
      apply andb_true_iff in Hl; now destruct Hl.
Qed.

(** X9: on an ASCII line without a line feed, the semicolon check
    reports S003 exactly when the text before the first comment marker (the whole
    line when there is none) ends in a semicolon followed by white space
    only; a semicolon between two statements or inside the comment does
    not count. *)
Theorem check_semicolon_code_part (a : CodeAnalyzer) :
  is_ascii (line a) = true ->
  no_newline (line a) = true ->
  (ends_in_semicolon (line a) ->
   check_semicolon a
   = Some (issue_append a (line_num a) "S003" "Unnecessary semicolon"))
  /\ (~ ends_in_semicolon (line a) -> check_semicolon a = Some a).
Proof.
  intros _ Hl; unfold check_semicolon.
  pose proof (semicolon_match_line (line a) Hl) as H.
  destruct (re_match Pattern.semicolon (line a)); split; intros Hc;
    try reflexivity.
  - elim Hc; now apply H.
  - apply H in Hc; discriminate.
Qed.

Lemma check_semicolon_code_part_witness :
  let a := set_line init 7 "x = 1;   # a; b" in
  check_semicolon a
  = Some (issue_append a 7 "S003" "Unnecessary semicolon").
Proof.
  intros a.
  apply (proj1 (check_semicolon_code_part a eq_refl eq_refl)).
  exists "x = 1", "   "; split; reflexivity.
Defined.

(** ** The TODO check *)

Lemma word_lit_i (w : string) (b : bool) (s q : string) :
  rx (Re.word Re.lit_i w) b s q <-> fold_string s = fold_string w.
Proof.
  revert b s; induction w as [|c w IH]; intros b s; cbn [Re.word rx fold_string].
  - split; [intros ->; reflexivity | destruct s; [reflexivity | discriminate]].
  - unfold Re.lit_i at 1; cbn [rx]; split.
    + intros (s1 & s2 & -> & (x & -> & Hx) & Hw).
      apply IH in Hw; apply Ascii.eqb_eq in Hx.
      cbn [append fold_string]; now rewrite Hx, Hw.
    + destruct s as [|x s]; cbn [fold_string]; [discriminate|].
      intros E; injection E as Ex Es.
      exists (String x ""), s; split; [reflexivity|]; split.
      * exists x; split; [reflexivity | now apply Ascii.eqb_eq].
      * now apply IH.
Qed.

Lemma todo_match_iff (l : string) :
  re_match Pattern.todo l = true <-> comment_has_todo l.
Proof.
  rewrite re_match_iff; unfold comment_has_todo; split.
  - intros (s1 & s2 & -> & H).
    unfold Pattern.todo in H; cbn [rx] in H.
    destruct H as (x4 & t & -> & (x3 & m & -> & (x2 & h & -> &
                    (x1 & p & -> & (-> & _) & Hp) & Hh) & Hm) & Ht).
    unfold Re.lit in Hh; cbn [rx] in Hh; destruct Hh as (c & -> & Hc).
    apply Ascii.eqb_eq in Hc; subst c.
    apply star_chr in Hp, Hm; apply word_lit_i in Ht.
    exists m, t, s2; repeat split.
    + assert (E : ((((("" ++ p) ++ String "#" "") ++ m) ++ t) ++ s2
                   = p ++ String "#" (m ++ t ++ s2))%string) by string_eq.
      rewrite E.
      apply (proj2 (parts_unique p (String "#" (m ++ t ++ s2)) Hp
                      (or_intror (ex_intro _ _ eq_refl)))).
    + now rewrite <- dot_no_newline.
    + exact Ht.
  - intros (m & t & rest & E & Hm & Ht).
    exists (code_part l ++ String "#" m ++ t)%string, rest; split.
    + rewrite (code_comment_parts l) at 1; rewrite E; string_eq.
    + unfold Pattern.todo; cbn [rx].
      exists (code_part l ++ String "#" m)%string, t; split; [string_eq|]; split;
        [| now apply word_lit_i].
      exists (code_part l ++ String "#" "")%string, m; split; [string_eq|]; split;
        [| apply star_chr; now rewrite dot_no_newline].
      exists (code_part l), (String "#" ""); split; [reflexivity|]; split;
        [| exists "#"%char; split; [reflexivity | apply Ascii.eqb_refl]].
      exists "", (code_part l); repeat split.
      apply star_chr, code_part_no_hash.
Qed.

(** X10: the TODO check reports S005 exactly when the text from the
    first comment marker on holds the letters of [todo], in any mix of
    upper and lower case, with no line feed between the marker and
    them; the same letters in the code before the marker do not count. *)
Theorem check_todo_comment_part (a : CodeAnalyzer) :
  (comment_has_todo (line a) ->
   check_todo a = Some (issue_append a (line_num a) "S005" "TODO found"))
  /\ (~ comment_has_todo (line a) -> check_todo a = Some a).
Proof.
  unfold check_todo.
  pose proof (todo_match_iff (line a)) as H.
  destruct (re_match Pattern.todo (line a)); split; intros Hc;
    try reflexivity.
  - elim Hc; now apply H.
  - apply H in Hc; discriminate.
Qed.

Lemma check_todo_comment_part_witness :
  let a := set_line init 3 "todo = 1  # fix ToDo later" in
  check_todo a = Some (issue_append a 3 "S005" "TODO found").
Proof.
  intros a.
  apply (proj1 (check_todo_comment_part a)).
  exists " fix ", "ToDo", " later"; repeat split; reflexivity.
Defined.

(** ** Spaces after [class] and [def] *)

Lemma word_lit (w : string) (b : bool) (s q : string) :
  rx (Re.word Re.lit w) b s q <-> s = w.
Proof.
  revert b s; induction w as [|c w IH]; intros b s; cbn [Re.word rx].
  - tauto.
  - unfold Re.lit at 1; cbn [rx]; split.
    + intros (s1 & s2 & -> & (x & -> & Hx) & Hw).
      apply IH in Hw; apply Ascii.eqb_eq in Hx; now subst.
    + intros ->; exists (String c ""), w; split; [reflexivity|]; split.
      * exists c; split; [reflexivity | apply Ascii.eqb_refl].
      * now apply IH.
Qed.

Lemma space_after_match_iff (keyword l : string) :
  re_match (Pattern.space_after keyword) l = true <->
  exists ws c1 c2 rest,
    l = (ws ++ keyword ++ String c1 (String c2 rest))%string
    /\ all_chars is_space ws = true
    /\ is_space c1 = true /\ is_space c2 = true.
Proof.
  rewrite re_match_iff; split.
  - intros (s1 & s2 & -> & H).
    unfold Pattern.space_after, Re.two_or_more, Re.s in H; cbn [rx] in H.
    destruct H as (x3 & tw & -> & (x2 & k & -> & (x1 & ws & -> & (-> & _) & Hws)
                    & Hk) & (y1 & y & -> & (c1 & -> & H1)
                    & (y2 & more & -> & (c2 & -> & H2) & _))).
    apply star_chr in Hws; apply word_lit in Hk; subst k.
    exists ws, c1, c2, (more ++ s2)%string; repeat split; auto.
    string_eq.
  - intros (ws & c1 & c2 & rest & -> & Hws & H1 & H2).
    exists (ws ++ keyword ++ String c1 (String c2 ""))%string, rest; split;
      [string_eq|].
    unfold Pattern.space_after, Re.two_or_more, Re.s; cbn [rx].
    exists (ws ++ keyword)%string, (String c1 (String c2 "")); split;
      [string_eq|]; split.
    + exists ws, keyword; split; [reflexivity|]; split; [| now apply word_lit].
      exists "", ws; repeat split; now apply star_chr.
    + exists (String c1 ""), (String c2 ""); split; [reflexivity|]; split;
        [eauto|].
      exists (String c2 ""), ""; split; [reflexivity|]; split;
        [eauto | constructor].
Qed.

Lemma leading_parts (p : ascii -> bool) (l : string) :
  exists ws, l = (ws ++ drop_leading p l)%string /\ all_chars p ws = true.
Proof.
  induction l as [|c l (ws & E & Hws)]; [exists ""; auto|].
  cbn [drop_leading]; destruct (p c) eqn:Hc.
  - exists (String c ws); cbn [append all_chars]; rewrite Hc, Hws, <- E; auto.
  - exists ""; auto.
Qed.

Lemma drop_leading_app (p : ascii -> bool) (ws : string) (c : ascii) (t : string) :
  all_chars p ws = true -> p c = false ->
  drop_leading p (ws ++ String c t) = String c t.
Proof.
  intros Hws Hc; induction ws as [|x ws IH]; cbn [append drop_leading].
  - now rewrite Hc.
  - cbn [all_chars] in Hws; apply andb_true_iff in Hws; destruct Hws as [-> Hws].
    now apply IH.
Qed.

Lemma strip_prefix_iff (pre s r : string) :
  strip_prefix pre s = Some r <-> s = (pre ++ r)%string.
Proof.
  revert s; induction pre as [|c pre IH]; intros s; cbn [strip_prefix append].
  - split; [now intros [= ->] | now intros ->].
  - destruct s as [|d s]; [split; discriminate|].
    destruct (Ascii.eqb_spec c d) as [<-|N].
    + rewrite IH; split; [now intros -> | now intros [= ->]].
    + split; [discriminate | intros [= E _]; now elim N].
Qed.

Lemma keyword_and_spaces_iff (k : ascii) (kw l : string) :
  is_space k = false ->
  keyword_and_spaces (String k kw) l
  = re_match (Pattern.space_after (String k kw)) l.
Proof.
  intros Hk; apply eq_true_iff_eq; rewrite space_after_match_iff.
  unfold keyword_and_spaces; split.
  - destruct (strip_prefix _ _) as [[|c1 [|c2 rest]]|] eqn:E; try discriminate.
    intros H; apply andb_true_iff in H; destruct H as [H1 H2].
    apply strip_prefix_iff in E.
    destruct (leading_parts is_space l) as (ws & El & Hws).
    exists ws, c1, c2, rest; repeat split; auto.
    now rewrite <- E.
  - intros (ws & c1 & c2 & rest & -> & Hws & H1 & H2).
    cbn [append]; rewrite (drop_leading_app _ _ _ _ Hws Hk).
    replace (strip_prefix (String k kw) (String k (kw ++ String c1 (String c2 rest))))
      with (Some (String c1 (String c2 rest)))
      by (symmetry; apply strip_prefix_iff; reflexivity).
    now rewrite H1, H2.
Qed.

(** X11: on an ASCII line the check on [class] and [def] reports S007
    exactly when the line, after the white space at its head, goes on
    with the keyword and at least two white-space characters; the
    message names the keyword found, and [class] is looked for first. *)
Theorem check_space_class_def_keyword (a : CodeAnalyzer) :
  is_ascii (line a) = true ->
  check_space_class_def a
  = Some (if keyword_and_spaces "class" (line a)
          then issue_append a (line_num a) "S007"
                 "Too many spaces after 'class'"
          else if keyword_and_spaces "def" (line a)
               then issue_append a (line_num a) "S007"
                      "Too many spaces after 'def'"
               else a).
Proof.
  intros _; unfold check_space_class_def.
  rewrite !keyword_and_spaces_iff by reflexivity.
  destruct (re_match (Pattern.space_after "class") (line a)); [reflexivity|].
  destruct (re_match (Pattern.space_after "def") (line a)); reflexivity.
Qed.

Lemma check_space_class_def_keyword_witness :
  let a := set_line init 9 "    def  run(self):" in
  check_space_class_def a
  = Some (issue_append a 9 "S007" "Too many spaces after 'def'").
Proof.
  intros a; rewrite (check_space_class_def_keyword a); reflexivity.
Defined.

(** ** Loading a file *)

Lemma join_split_lines (s : string) : join newline (split_lines s) = s.
Proof.
  unfold join; induction s as [|c s IH]; [reflexivity|].
  cbn [split_lines].
  destruct (Ascii.eqb_spec c "010"%char) as [->|N].
  - cbn [String.concat].
    destruct (split_lines s) as [|h t] eqn:E;
      [now apply split_lines_nonempty in E|].
    rewrite IH; reflexivity.
  - destruct (split_lines s) as [|h t] eqn:E;
      [now apply split_lines_nonempty in E|].
    cbn [String.concat] in *; destruct t; cbn [append]; now rewrite IH.
Qed.

Lemma split_lines_no_line_feed (s : string) :
  forallb no_newline (split_lines s) = true.
Proof.
  induction s as [|c s IH]; [reflexivity|].
  cbn [split_lines].
  destruct (Ascii.eqb c "010") eqn:E; [exact IH|].
  destruct (split_lines s) as [|h t]; cbn [forallb] in *.
  - rewrite no_newline_cons, Ascii.eqb_sym, E; reflexivity.
  - rewrite no_newline_cons, Ascii.eqb_sym, E; exact IH.
Qed.

Lemma rstrip_parts (s : string) :
  exists w, s = (rstrip s ++ w)%string /\ all_chars py_isspace w = true.
Proof.
  induction s as [|c s (w & E & Hw)]; [exists ""; auto|].
  cbn [rstrip]; destruct (rstrip s) as [|d r] eqn:He; cbn [is_empty andb].
  - cbn [append] in E; subst w.
    destruct (py_isspace c) eqn:Hc.
    + exists (String c s); cbn [append all_chars]; now rewrite Hc, Hw.
    + exists s; cbn [append]; auto.
  - exists w; split; [rewrite E at 1; reflexivity | exact Hw].
Qed.

Lemma rstrip_trimmed (s : string) : trimmed (rstrip s).
Proof.
  unfold trimmed; induction s as [|c s IH]; [exact I|].
  cbn [rstrip]; destruct (rstrip s) as [|d r] eqn:E; cbn [is_empty andb].
  - destruct (py_isspace c) eqn:Hc; [exact I | exact Hc].
  - exact IH.
Qed.

(** X12: loading a file of ASCII text that parses leaves the issues as
    they are and sets the lines so that there is at least one line, no line holds a
    line feed, and the lines joined by line feeds are the text of the
    file up to the white space at its end: the joined lines do not end
    in white space, and the text is the joined lines followed by white
    space only.  The blank lines that end a file are never among the
    lines the checks see. *)
Theorem load_file_lines (u : source_file) (t : node) (a : CodeAnalyzer) :
  is_ascii (source u) = true ->
  parsed u = Some t ->
  exists a' w,
    load_file u a = Some a'
    /\ file a' = file a /\ tree a' = t /\ issues a' = issues a
    /\ lines a' <> []
    /\ forallb no_newline (lines a') = true
    /\ source u = (join newline (lines a') ++ w)%string
    /\ all_chars py_isspace w = true
    /\ trimmed (join newline (lines a')).
Proof.
  intros _ Hp; unfold load_file; rewrite Hp.
  destruct (rstrip_parts (source u)) as (w & E & Hw).
  eexists; exists w; split; [reflexivity|]; cbn [file tree issues lines set_source].
  repeat split.
  - apply split_lines_nonempty.
  - apply split_lines_no_line_feed.
  - now rewrite join_split_lines.
  - exact Hw.
  - rewrite join_split_lines; apply rstrip_trimmed.
Qed.

Lemma load_file_lines_witness :
  exists a' w,
    load_file four_blank_lines_file init = Some a'
    /\ file a' = file init
    /\ tree a' = Other [Other [Other [Name "print" Load 5; Other []]]]
    /\ issues a' = issues init
    /\ lines a' <> []
    /\ forallb no_newline (lines a') = true
    /\ source four_blank_lines_file = (join newline (lines a') ++ w)%string
    /\ all_chars py_isspace w = true
    /\ trimmed (join newline (lines a')).
Proof. apply load_file_lines; reflexivity. Defined.

(** ** The inline-comment check, by code and comment *)

Lemma inline_match_parts (l : string) :
  re_match Pattern.inline l = true <-> inline_reported l.
Proof.
  unfold inline_reported.
  rewrite inline_match_iff; split.
  - intros (p & c & rest & Hp & Hc & E).
    change (all_chars not_hash p = true) in Hp.
    destruct (Ascii.eqb_spec "#"%char c) as [<-|N].
    + right; exists rest.
      destruct E as [-> | ->];
        [left | right];
        apply (proj2 (parts_unique p _ Hp (or_intror (ex_intro _ _ eq_refl)))).
    + left.
      assert (Hc' : not_hash c = true)
        by (unfold not_hash; destruct (Ascii.eqb_spec "#"%char c); tauto).
      destruct E as [-> | ->].
      * assert (Hx : all_chars not_hash (p ++ String c "") = true)
          by (rewrite all_chars_app, Hp; cbn [all_chars]; now rewrite Hc').
        replace (p ++ String c (String "#" rest))%string
          with ((p ++ String c "") ++ String "#" rest)%string by string_eq.
        destruct (parts_unique _ (String "#" rest) Hx
                    (or_intror (ex_intro _ _ eq_refl))) as [-> ->].
        split; [discriminate|]; exists p, c; auto.
      * assert (Hx : all_chars not_hash (p ++ String c (String " " "")) = true)
          by (rewrite all_chars_app, Hp; cbn [all_chars]; now rewrite Hc').
        replace (p ++ String c (String " " (String "#" rest)))%string
          with ((p ++ String c (String " " "")) ++ String "#" rest)%string
          by string_eq.
        destruct (parts_unique _ (String "#" rest) Hx
                    (or_intror (ex_intro _ _ eq_refl))) as [-> ->].
        split; [discriminate|]; exists p, c; auto.
  - intros [(Hne & p & c & Hc & E) | (r & E)].
    + destruct (comment_part_head l) as [H|(r & Hr)]; [contradiction|].
      pose proof (code_part_no_hash l) as Hn.
      exists p, c, r; split; [| split; [exact Hc|]].
      * destruct E as [E|E]; rewrite E, all_chars_app in Hn;
          apply andb_true_iff in Hn; now destruct Hn.
      * assert (El : l = (code_part l ++ String "#" r)%string)
          by (rewrite <- Hr; apply code_comment_parts).
        destruct E as [E|E]; [left | right]; rewrite El, E; string_eq.
    + exists (code_part l), "#"%char; pose proof (code_part_no_hash l) as Hn.
      destruct E as [E|E].
      * exists r; split; [exact Hn|]; split; [reflexivity|]; left.
        rewrite (code_comment_parts l) at 1; now rewrite E.
      * exists r; split; [exact Hn|]; split; [reflexivity|]; right.
        rewrite (code_comment_parts l) at 1; now rewrite E.
Qed.

(** X13: on an ASCII line the inline-comment check reports S004 exactly
    in two cases:
    the line has a comment and the text before it ends in a character
    that is not white space, with at most one space after it; or the
    comment itself starts with two markers, or with two markers that
    have one space between them. *)
Theorem check_inline_code_and_comment (a : CodeAnalyzer) :
  is_ascii (line a) = true ->
  (inline_reported (line a) ->
   check_inline a
   = Some (issue_append a (line_num a) "S004"
             "At least two spaces required before inline comments"))
  /\ (~ inline_reported (line a) -> check_inline a = Some a).
Proof.
  intros _; unfold check_inline.
  pose proof (inline_match_parts (line a)) as H.
  destruct (re_match Pattern.inline (line a)); split; intros Hc;
    try reflexivity.
  - elim Hc; now apply H.
  - apply H in Hc; discriminate.
Qed.

Lemma check_inline_code_and_comment_witness :
  let a := set_line init 4 "x = 1 # one space" in
  check_inline a
  = Some (issue_append a 4 "S004"
            "At least two spaces required before inline comments").
Proof.
  intros a.
  apply (proj1 (check_inline_code_and_comment a eq_refl)).
  left; split; [discriminate|].
  exists "x = ", "1"%char; split; [reflexivity | right; reflexivity].
Defined.

(** ** Finding the files *)

Lemma collect_eq (file_list : list string) e :
  collect file_list e
  = file_list ++ map (os_path_join (fst (fst e)))
                     (filter (ends_with ".py") (snd e)).
Proof.
  destruct e as [[root dirs] files]; unfold collect; cbn [fst snd].
  revert file_list; induction files as [|f files IH]; intros file_list.
  - simpl; now rewrite app_nil_r.
  - cbn [fold_left filter]; rewrite IH.
    destruct (ends_with ".py" f); [| reflexivity].
    cbn [map]; now rewrite <- app_assoc.
Qed.

Lemma collect_all walked :
  forall file_list,
    fold_left collect walked file_list = file_list ++ python_paths walked.
Proof.
  unfold python_paths; induction walked as [|e walked IH]; intros file_list.
  - simpl; now rewrite app_nil_r.
  - cbn [fold_left flat_map]; now rewrite IH, collect_eq, app_assoc.
Qed.

Lemma ends_with_iff (suffix s : string) :
  ends_with suffix s = true <-> exists p, s = (p ++ suffix)%string.
Proof.
  induction s as [|c s IH]; cbn [ends_with].
  - destruct (String.eqb_spec "" suffix) as [<-|N]; split; auto.
    + intros _; exists ""; reflexivity.
    + discriminate.
    + intros ([|d p] & E); [now elim N | discriminate].
  - destruct (String.eqb_spec (String c s) suffix) as [<-|N].
    + split; [intros _; exists ""; reflexivity | reflexivity].
    + rewrite IH; split.
      * intros (p & ->); exists (String c p); reflexivity.
      * intros ([|d p] & E); [now elim N|].
        injection E as _ ->; eauto.
Qed.

Lemma ends_with_join (suffix a b : string) :
  ends_with suffix b = true -> ends_with suffix (os_path_join a b) = true.
Proof.
  rewrite !ends_with_iff; intros (p & ->); unfold os_path_join.
  destruct (starts_with "/" _); [eauto|].
  destruct (_ || _).
  - exists (a ++ p)%string; now rewrite sapp_assoc.
  - exists (a ++ "/" ++ p)%string; now rewrite !sapp_assoc.
Qed.

Lemma str_ltb_false (x y : string) : String.ltb x y = false -> str_le y x.
Proof.
  intros H; destruct (str_lt_total x y) as [L|[->|L]].
  - apply str_ltb_iff in L; congruence.
  - now left.
  - now right.
Qed.

Lemma str_le_trans (x y z : string) : str_le x y -> str_le y z -> str_le x z.
Proof.
  intros [->|H1] [->|H2]; unfold str_le; eauto using str_lt_trans.
Qed.

Lemma str_le_antisym (x y : string) : str_le x y -> str_le y x -> x = y.
Proof.
  intros [->|H1] [E|H2]; auto.
  exfalso; eapply str_lt_irrefl, str_lt_trans; eauto.
Qed.

Lemma insert_path_perm (x : string) (l : list string) :
  Permutation (x :: l) (insert_path x l).
Proof.
  induction l as [|y l IH]; simpl; [reflexivity|].
  destruct (String.ltb y x); [| reflexivity].
  rewrite perm_swap; now constructor.
Qed.

Lemma sorted_paths_perm (l : list string) : Permutation l (sorted_paths l).
Proof.
  induction l as [|x l IH]; simpl; [constructor|].
  rewrite <- insert_path_perm; now constructor.
Qed.

Lemma insert_path_sorted (x : string) (l : list string) :
  StronglySorted str_le l -> StronglySorted str_le (insert_path x l).
Proof.
  induction 1 as [|y l Hs IH Hy]; simpl; [repeat constructor|].
  destruct (String.ltb y x) eqn:E.
  - constructor; [exact IH|].
    rewrite <- insert_path_perm; constructor; [| exact Hy].
    right; now apply str_ltb_iff.
  - apply str_ltb_false in E.
    constructor; [now constructor|].
    constructor; [exact E|].
    eapply Forall_impl; [| exact Hy].
    intros z Hz; eapply str_le_trans; eauto.
Qed.

Lemma sorted_paths_sorted (l : list string) :
  StronglySorted str_le (sorted_paths l).
Proof.
  induction l as [|x l IH]; simpl; [constructor | now apply insert_path_sorted].
Qed.

Lemma sorted_paths_unique (l1 : list string) :
  forall l2,
    StronglySorted str_le l1 -> StronglySorted str_le l2 ->
    Permutation l1 l2 -> l1 = l2.
Proof.
  induction l1 as [|x l1 IH]; intros l2 S1 S2 P.
  - apply Permutation_nil in P; now subst.
  - destruct l2 as [|y l2];
      [apply Permutation_sym, Permutation_nil in P; discriminate|].
    inversion S1 as [|? ? S1' A1]; inversion S2 as [|? ? S2' A2]; subst.
    rewrite Forall_forall in A1, A2.
    assert (Hx : In x (y :: l2))
      by (eapply Permutation_in; [exact P | now left]).
    assert (Hy : In y (x :: l1))
      by (eapply Permutation_in; [symmetry; exact P | now left]).
    assert (E : x = y).
    { destruct Hx as [->|Hx]; [reflexivity|].
      destruct Hy as [->|Hy]; [reflexivity|].
      apply str_le_antisym; [now apply A1 | now apply A2]. }
    subst y; f_equal; apply IH; auto.
    eapply Permutation_cons_inv; exact P.
Qed.

Lemma load_dir_directory path walked :
  load_dir path (IsDir walked)
  = match python_paths walked with
    | [] => ValueError "No files to check"
    | _ => Files (sorted_paths (python_paths walked))
    end.
Proof.
  unfold load_dir; rewrite collect_all; cbn [app].
  destruct (python_paths walked); reflexivity.
Qed.

(** X14: for a directory, [load_dir] raises "No files to check" exactly
    when no file name of the walk ends in [.py]; otherwise it returns
    the paths of those files and no other, each once for each time the
    walk yields it, in ascending order; every returned path ends in
    [.py]; and the result does not depend on the order in which the
    walk yields the directories. *)
Theorem load_dir_directory_sorted (path : string)
        (walked : list (string * list string * list string)) :
  (load_dir path (IsDir walked) = ValueError "No files to check"
   <-> forallb (fun f => negb (ends_with ".py" f)) (walked_files walked) = true)
  /\ (forall l,
         load_dir path (IsDir walked) = Files l ->
         l <> []
         /\ StronglySorted str_le l
         /\ Permutation l (python_paths walked)
         /\ Forall (fun p => ends_with ".py" p = true) l)
  /\ (forall walked',
         Permutation walked walked' ->
         load_dir path (IsDir walked') = load_dir path (IsDir walked)).
Proof.
  rewrite load_dir_directory; split; [|split].
  - assert (H : python_paths walked = []
                <-> forallb (fun f => negb (ends_with ".py" f))
                            (walked_files walked) = true).
    { unfold python_paths, walked_files.
      induction walked as [|[[root dirs] files] walked IH]; cbn [flat_map fst snd].
      - split; reflexivity.
      - rewrite forallb_app, andb_true_iff, <- IH; clear IH.
        split.
        + intros E; apply app_eq_nil in E; destruct E as [E1 E2].
          split; [| exact E2].
          apply map_eq_nil in E1.
          induction files as [|f files IHf]; [reflexivity|].
          cbn [filter forallb] in *.
          destruct (ends_with ".py" f); [discriminate | now apply IHf].
        + intros [H1 ->]; rewrite app_nil_r.
          induction files as [|f files IHf]; [reflexivity|].
          cbn [filter forallb] in *.
          apply andb_true_iff in H1; destruct H1 as [Hf H1].
          apply negb_true_iff in Hf; rewrite Hf; now apply IHf. }
    rewrite <- H; destruct (python_paths walked); split;
      auto; discriminate.
  - intros l E.
    destruct (python_paths walked) as [|x xs] eqn:Ep; [discriminate|].
    injection E as <-.
    pose proof (sorted_paths_perm (x :: xs)) as P.
    repeat split.
    + intros E0.
      assert (H0 : Permutation (x :: xs) []) by (rewrite <- E0; exact P).
      apply Permutation_sym, Permutation_nil_cons in H0; exact H0.
    + apply (sorted_paths_sorted (x :: xs)).
    + now symmetry.
    + apply Forall_forall; intros p Hp.
      apply (Permutation_in _ (Permutation_sym P)) in Hp.
      rewrite <- Ep in Hp; unfold python_paths in Hp.
      apply in_flat_map in Hp; destruct Hp as (e & _ & Hp).
      apply in_map_iff in Hp; destruct Hp as (f & <- & Hf).
      apply filter_In in Hf; destruct Hf as [_ Hf].
      now apply ends_with_join.
  - intros walked' P; rewrite load_dir_directory.
    assert (Pp : Permutation (python_paths walked) (python_paths walked'))
      by (unfold python_paths; now apply Permutation_flat_map).
    destruct (python_paths walked) as [|x xs] eqn:E1.
    + apply Permutation_nil in Pp; now rewrite Pp.
    + destruct (python_paths walked') as [|y ys] eqn:E2;
        [apply Permutation_sym, Permutation_nil in Pp; discriminate|].
      f_equal; apply sorted_paths_unique; try apply sorted_paths_sorted.
      rewrite <- (sorted_paths_perm (x :: xs)), <- (sorted_paths_perm (y :: ys)).
      now symmetry.
Qed.

Lemma load_dir_directory_sorted_witness :
  let walked := [("pkg", ["sub"], ["b.py"; "notes.txt"; "a.py"]);
                 ("pkg/sub", [], ["c.py"])] in
  load_dir "pkg" (IsDir walked) = Files ["pkg/a.py"; "pkg/b.py"; "pkg/sub/c.py"]
  /\ StronglySorted str_le ["pkg/a.py"; "pkg/b.py"; "pkg/sub/c.py"].
Proof.
  intros walked; split; [reflexivity|].
  apply (proj1 (proj2 (load_dir_directory_sorted "pkg" walked))
           ["pkg/a.py"; "pkg/b.py"; "pkg/sub/c.py"] eq_refl).
Defined.

(** ** One issue for each check and line *)

Lemma coded_line_checks_at_most (c : string) (m : method) :
  In (c, m) coded_line_checks -> adds_at_most c m.
Proof.
  unfold coded_line_checks; simpl.
  intros [E|[E|[E|[E|[E|[E|[E|[]]]]]]]]; injection E as <- <-; intros a Ha.
  - unfold check_length.
    destruct (79 <? String.length (line a))%nat; eauto.
  - unfold check_indent; rewrite indent_match_end.
    destruct (negb _); eauto.
  - unfold check_semicolon.
    destruct (re_match Pattern.semicolon (line a)); eauto.
  - unfold check_inline.
    destruct (re_match Pattern.inline (line a)); eauto.
  - unfold check_todo.
    destruct (re_match Pattern.todo (line a)); eauto.
  - rewrite check_blank_lines_eq by lia.
    destruct (excessive_blank_lines _ _); eauto.
  - unfold check_space_class_def.
    destruct (re_match (Pattern.space_after "class") (line a)); [eauto|].
    destruct (re_match (Pattern.space_after "def") (line a)); eauto.
Qed.

Lemma run_coded_checks (cs : list (string * method)) :
  (forall c m, In (c, m) cs -> adds_at_most c m) ->
  StronglySorted str_lt (map fst cs) ->
  forall a : CodeAnalyzer,
    (1 <= line_num a <= Z.of_nat (length (lines a)))%Z ->
    exists l,
      run_checks (map snd cs) a = Some (add_issues a l)
      /\ Forall (fun i => Issue.file i = file a
                          /\ Issue.line_num i = line_num a
                          /\ In (Issue.code i) (map fst cs)) l
      /\ StronglySorted str_lt (map Issue.code l).
Proof.
  unfold run_checks.
  induction cs as [|[c m] cs IH]; intros Hall Hs a Ha.
  - exists []; simpl; rewrite add_issues_nil; repeat split; constructor.
  - cbn [map fst snd] in *; inversion Hs as [|? ? Hs' Hc]; subst.
    assert (Hrest : forall c' m', In (c', m') cs -> adds_at_most c' m')
      by (intros c' m' H; apply Hall; now right).
    cbn [fold_left bind].
    destruct (Hall c m (or_introl eq_refl) a Ha) as [-> | (msg & ->)].
    + destruct (IH Hrest Hs' a Ha) as (l & E & F & S).
      exists l; repeat split; auto.
      eapply Forall_impl; [| exact F]; simpl; intuition.
    + destruct (IH Hrest Hs' (issue_append a (line_num a) c msg) Ha)
        as (l & E & F & S).
      exists (Issue.mk (file a) (line_num a) c msg :: l); split; [|split].
      * rewrite E.
        change (issue_append a (line_num a) c msg)
          with (add_issues a [Issue.mk (file a) (line_num a) c msg]).
        now rewrite add_issues_app.
      * constructor; [simpl; auto|].
        eapply Forall_impl; [| exact F]; simpl; intuition.
      * cbn [map Issue.code]; constructor; [exact S|].
        rewrite Forall_forall in *; intros c' Hc'.
        apply in_map_iff in Hc'; destruct Hc' as (i & <- & Hi).
        apply Hc; now apply F.
Qed.

Lemma line_checks_coded : line_checks = map snd coded_line_checks.
Proof. reflexivity. Qed.

Lemma coded_line_checks_sorted :
  StronglySorted str_lt (map fst coded_line_checks).
Proof. repeat constructor. Qed.

Lemma lex_lt_later_line (i j : Issue.t) :
  Issue.file i = Issue.file j ->
  (Issue.line_num i < Issue.line_num j)%Z -> lex_lt i j.
Proof. intros Hf Hl; right; split; [exact Hf | now left]. Qed.

Lemma analyze_lines_from_sorted (ls : list string) :
  forall (num : Z) (a : CodeAnalyzer),
    (1 <= num)%Z ->
    (num - 1 + Z.of_nat (length ls) <= Z.of_nat (length (lines a)))%Z ->
    exists a' l,
      analyze_lines_from num ls a = Some a'
      /\ issues a' = issues a ++ l
      /\ Forall (fun i => Issue.file i = file a
                          /\ (num <= Issue.line_num i)%Z) l
      /\ StronglySorted lex_lt l.
Proof.
  induction ls as [|x ls IH]; intros num a Hlo Hhi.
  - exists a, []; rewrite app_nil_r; repeat split; constructor.
  - cbn [length] in Hhi.
    destruct (run_coded_checks coded_line_checks coded_line_checks_at_most
                coded_line_checks_sorted (set_line a num x))
      as (l1 & E1 & F1 & S1); [simpl; lia|].
    rewrite <- line_checks_coded in E1.
    destruct (IH (num + 1)%Z (add_issues (set_line a num x) l1))
      as (a' & l2 & E2 & Hi & F2 & S2); [lia | simpl; lia |].
    exists a', (l1 ++ l2); cbn [analyze_lines_from]; rewrite E1; simpl bind.
    rewrite E2; split; [reflexivity|]; split; [|split].
    + rewrite Hi; simpl; now rewrite app_assoc.
    + apply Forall_app; split.
      * eapply Forall_impl; [| exact F1]; simpl.
        intros i (Hf & Hl & _); split; [exact Hf | lia].
      * eapply Forall_impl; [| exact F2]; simpl.
        intros i (Hf & Hl); split; [exact Hf | lia].
    + clear E1 E2 Hi.
      induction l1 as [|i l1 IHl]; [exact S2|].
      inversion F1 as [|? ? (Hf & Hl & _) F1']; subst.
      cbn [map] in S1; inversion S1 as [|? ? S1' C1]; subst.
      cbn [app]; constructor; [now apply IHl|].
      apply Forall_app; split.
      * rewrite Forall_forall in *; intros j Hj.
        destruct (F1' j Hj) as (Hfj & Hlj & _).
        right; split; [simpl in *; congruence|].
        right; split; [simpl in *; congruence|].
        left; apply C1; now apply in_map.
      * rewrite Forall_forall in *; intros j Hj.
        destruct (F2 j Hj) as (Hfj & Hlj); simpl in *.
        apply lex_lt_later_line; [congruence | lia].
Qed.

Lemma strongly_sorted_nodup (l : list Issue.t) :
  StronglySorted lex_lt l -> NoDup l.
Proof.
  induction 1 as [|i l _ IH Hi]; constructor; [| exact IH].
  intros Hin; rewrite Forall_forall in Hi.
  eapply lex_lt_irrefl, Hi, Hin.
Qed.

(** X15: the line checks never raise on the lines of the loaded file,
    and what [analyze_lines] adds is in strictly ascending order of
    line number and, within a line, of code: every check adds at most
    one issue for a line, the issues of a line come before those of the
    next, and no issue is added twice. *)
Theorem analyze_lines_ascending (a : CodeAnalyzer) :
  exists a' l,
    analyze_lines a = Some a'
    /\ issues a' = issues a ++ l
    /\ StronglySorted lex_lt l
    /\ NoDup l
    /\ sorted l = l.
Proof.
  destruct (analyze_lines_from_sorted (lines a) 1 a)
    as (a' & l & E & Hi & _ & S); [lia | lia |].
  exists a', l; repeat split; auto.
  - now apply strongly_sorted_nodup.
  - apply sorted_list_unique; [apply sorted_sorted | |].
    + clear -S; induction S as [|i l _ IH Hi]; constructor; [exact IH|].
      eapply Forall_impl; [| exact Hi]; intros j Hj; now right.
    + symmetry; apply sorted_perm.
Qed.
